(** * Multiverse chat: the conversation tree client and its navigator

    A shallow embedding of the TypeScript client of the branching chat
    application (the [api] module, the [useChat] hook, the [MessageBubble]
    and [SplitView] components, the shared [types]), together with a model
    of the tree navigator and branch writer that live in the backend.

    Conventions.
    - A JavaScript [string] is a Rocq [string]; [null] and [undefined] are
      [None]; a JSON number used as an array index is a [Z].
    - An [async] function of the hook is a computation in the monad [M]
      below: it threads the React state and may reject.
    - An async generator is the finite list of the values it yields. *)

From Stdlib Require Import String Ascii List ZArith Lia Bool Arith.
From Stdlib Require Import Permutation Sorting.Sorted.
Import ListNotations.
Open Scope string_scope.
Open Scope list_scope.

(* ===================================================================== *)
(** * The shared types ([types/index.ts]) *)
(* ===================================================================== *)

(** [role: 'user' | 'assistant' | 'system'] *)
Inductive Role : Type := user | assistant | system.

Definition Role_eqb (a b : Role) : bool :=
  match a, b with
  | user, user | assistant, assistant | system, system => true
  | _, _ => false
  end.

Module Node.
Record t : Type := mk {
  id : string;
  session_id : string;
  parent_id : option string;
  role : Role;
  content : string;
  created_at : string;
  model : option string;
  is_active : bool
}.
End Node.

Module Session.
Record t : Type := mk {
  id : string;
  name : string;
  created_at : string;
  updated_at : string
}.
End Session.

Module ChatStreamChunk.
Record t : Type := mk {
  token : string;
  node_id : string;
  user_node_id : option string;
  done : bool;
  full_content : option string;
  error : option bool
}.
End ChatStreamChunk.

Module SiblingsResponse.
Record t : Type := mk {
  siblings : list Node.t;
  current_index : Z;
  total : Z
}.
End SiblingsResponse.

Module TreeResponse.
Record t : Type := mk {
  session_id : string;
  nodes : list Node.t
}.
End TreeResponse.

(** JavaScript truthiness of a string: every string but the empty one. *)
Definition truthy (s : string) : bool :=
  match s with EmptyString => false | String _ _ => true end.

(** [x || null] on a [string | undefined]. *)
Definition or_null (x : option string) : option string :=
  match x with
  | Some s => if truthy s then Some s else None
  | None => None
  end.

(* ===================================================================== *)
(** * The stream parsers of [api/index.ts] *)
(* ===================================================================== *)

Definition nl : ascii := "010"%char.

(** [s.split('\n')]: never empty, the pieces between the newlines. *)
Fixpoint split_nl (s : string) : list string :=
  match s with
  | EmptyString => [EmptyString]
  | String c s' =>
      if Ascii.eqb c nl then EmptyString :: split_nl s'
      else match split_nl s' with
           | [] => [String c EmptyString]
           | l :: ls => String c l :: ls
           end
  end.

(** The one-byte characters that [String.prototype.trim] strips: TAB, LF,
    VT, FF, CR and SPACE. The other characters it strips take several
    bytes in UTF-8; a line made of them alone is no JSON text either, so
    it is skipped by the [catch] instead of the [if]. *)
Definition is_ws (c : ascii) : bool :=
  let n := nat_of_ascii c in
  (((9 <=? n) && (n <=? 13)) || (n =? 32))%nat.

(** [line.trim()] used as a condition: true when a character survives. *)
Fixpoint trim_truthy (line : string) : bool :=
  match line with
  | EmptyString => false
  | String c rest => if is_ws c then trim_truthy rest else true
  end.

(** [lines.pop()]: the last element, [undefined] on the empty array. *)
Fixpoint pop_value (lines : list string) : option string :=
  match lines with
  | [] => None
  | [x] => Some x
  | _ :: rest => pop_value rest
  end.

(** [lines.pop() || ''] *)
Definition pop_or_empty (lines : list string) : string :=
  match pop_value lines with
  | Some s => if truthy s then s else ""
  | None => ""
  end.

(** Concatenation of the chunks of text received so far. *)
Definition join (reads : list string) : string :=
  fold_right String.append "" reads.

Section StreamParser.

(** The values [JSON.parse] produces, and [JSON.parse] itself; [None] is
    the [SyntaxError] it throws. *)
Variable J : Type.
Variable JSON_parse : string -> option J.

(** The body of [for (const line of lines)]: a blank line is skipped, a
    line that parses is yielded, a parse error is caught and ignored. *)
Definition yield_line (line : string) : list J :=
  if trim_truthy line then
    match JSON_parse line with
    | Some v => [v]
    | None => []
    end
  else [].

Definition yield_lines (lines : list string) : list J :=
  flat_map yield_line lines.

(** One turn of [while (true)] after a successful [reader.read()]:
    the text [value] (what [decoder.decode(value, {stream: true})] gives)
    is appended to the buffer, the buffer is split, the last piece is kept
    and the others are handed to the loop over lines. *)
Definition read_step (buffer value : string) : string * list J :=
  let buffer1 := (buffer ++ value)%string in
  let lines := split_nl buffer1 in
  (pop_or_empty lines, yield_lines (removelast lines)).

(** The whole loop; the reads end with [done], on which the loop breaks
    and the buffer is discarded. *)
Fixpoint stream_loop (buffer : string) (reads : list string) : list J :=
  match reads with
  | [] => []
  | value :: rest =>
      let '(buffer', ys) := read_step buffer value in
      ys ++ stream_loop buffer' rest
  end.

(** A response: [None] when [res.body] has no reader. *)
Inductive Yielded : Type :=
| Throws (msg : string)
| Yields (vs : list J).

Definition parse_body (body : option (list string)) : Yielded :=
  match body with
  | None => Throws "No response body"
  | Some reads => Yields (stream_loop "" reads)
  end.

(** The three generators differ in the request only. *)
Definition streamChat (sessionId content : string) (parentId : option string)
    (model : string) (body : option (list string)) : Yielded :=
  parse_body body.

Definition streamBranch (nodeId model : string)
    (body : option (list string)) : Yielded :=
  parse_body body.

Definition streamContinue (parentId content sessionId model : string)
    (body : option (list string)) : Yielded :=
  parse_body body.

(** What the stream holds: its complete, newline-terminated lines. *)
Definition complete_lines (text : string) : list string :=
  removelast (split_nl text).

Definition parsed_line (line : string) : list J :=
  match JSON_parse line with
  | Some v => [v]
  | None => []
  end.

Definition parsed_values (text : string) : list J :=
  flat_map parsed_line (complete_lines text).

End StreamParser.

Arguments Throws {J} msg.
Arguments Yields {J} vs.

(* ===================================================================== *)
(** * The client's view of the backend *)
(* ===================================================================== *)

(** The outcome of an awaited promise. *)
Inductive Result (A : Type) : Type :=
| Resolved (a : A)
| Rejected (msg : string).
Arguments Resolved {A} a.
Arguments Rejected {A} msg.

(** What the async generator [api.streamChat] (or [streamBranch]) hands to
    [for await]: the chunks it yields, then whether it returns or throws. *)
Module ChatStream.
Record t : Type := mk {
  events : list ChatStreamChunk.t;
  closes : Result unit
}.
End ChatStream.

(** The responses of the backend to the calls of the [api] module. *)
Module Api.
Record t : Type := mk {
  getSessions : Result (list Session.t);
  deleteSession : string -> Result unit;
  getSessionTree : string -> Result TreeResponse.t;
  getNodePath : string -> Result (list Node.t);
  streamChat : string -> string -> option string -> string -> ChatStream.t;
  streamBranch : string -> string -> ChatStream.t
}.
End Api.

(* ===================================================================== *)
(** * The [useChat] hook *)
(* ===================================================================== *)

(** The nine [useState] cells of the hook. *)
Module ChatState.
Record t : Type := mk {
  sessions : list Session.t;
  currentSession : option Session.t;
  nodes : list Node.t;
  activeNodeId : option string;
  currentPath : list Node.t;
  isStreaming : bool;
  streamingContent : string;
  pendingUserMessage : option string;
  selectedModel : string
}.

(** [useState] initial values. *)
Definition initial : t :=
  mk [] None [] None [] false "" None "gemma3:4b".
End ChatState.

(** An async function of the hook: it reads and writes the state cells and
    resolves or rejects. The state survives a rejection. *)
Definition M (A : Type) : Type := ChatState.t -> ChatState.t * Result A.

Definition ret {A} (a : A) : M A := fun st => (st, Resolved a).

Definition bind {A B} (m : M A) (k : A -> M B) : M B :=
  fun st =>
    match m st with
    | (st', Resolved a) => k a st'
    | (st', Rejected msg) => (st', Rejected msg)
    end.

(** [await p] for a promise of the [api] module. *)
Definition await {A} (r : Result A) : M A := fun st => (st, r).

(** [try { body } finally { cleanup }] where the cleanup does not reject. *)
Definition try_finally {A} (body : M A) (cleanup : M unit) : M A :=
  fun st =>
    match body st with
    | (st', r) => (fst (cleanup st'), r)
    end.

Declare Scope client_scope.
Delimit Scope client_scope with client.
Notation "x <- m ;; k" := (bind m (fun x => k))
  (at level 61, m at next level, right associativity) : client_scope.
Notation "m ;; k" := (bind m (fun _ => k))
  (at level 61, right associativity) : client_scope.
Open Scope client_scope.

Definition setSessions (v : list Session.t) : M unit := fun st =>
  (ChatState.mk v (ChatState.currentSession st) (ChatState.nodes st)
     (ChatState.activeNodeId st) (ChatState.currentPath st)
     (ChatState.isStreaming st) (ChatState.streamingContent st)
     (ChatState.pendingUserMessage st) (ChatState.selectedModel st),
   Resolved tt).

Definition setCurrentSession (v : option Session.t) : M unit := fun st =>
  (ChatState.mk (ChatState.sessions st) v (ChatState.nodes st)
     (ChatState.activeNodeId st) (ChatState.currentPath st)
     (ChatState.isStreaming st) (ChatState.streamingContent st)
     (ChatState.pendingUserMessage st) (ChatState.selectedModel st),
   Resolved tt).

Definition setNodes (v : list Node.t) : M unit := fun st =>
  (ChatState.mk (ChatState.sessions st) (ChatState.currentSession st) v
     (ChatState.activeNodeId st) (ChatState.currentPath st)
     (ChatState.isStreaming st) (ChatState.streamingContent st)
     (ChatState.pendingUserMessage st) (ChatState.selectedModel st),
   Resolved tt).

Definition setActiveNodeId (v : option string) : M unit := fun st =>
  (ChatState.mk (ChatState.sessions st) (ChatState.currentSession st)
     (ChatState.nodes st) v (ChatState.currentPath st)
     (ChatState.isStreaming st) (ChatState.streamingContent st)
     (ChatState.pendingUserMessage st) (ChatState.selectedModel st),
   Resolved tt).

Definition setCurrentPath (v : list Node.t) : M unit := fun st =>
  (ChatState.mk (ChatState.sessions st) (ChatState.currentSession st)
     (ChatState.nodes st) (ChatState.activeNodeId st) v
     (ChatState.isStreaming st) (ChatState.streamingContent st)
     (ChatState.pendingUserMessage st) (ChatState.selectedModel st),
   Resolved tt).

Definition setIsStreaming (v : bool) : M unit := fun st =>
  (ChatState.mk (ChatState.sessions st) (ChatState.currentSession st)
     (ChatState.nodes st) (ChatState.activeNodeId st)
     (ChatState.currentPath st) v (ChatState.streamingContent st)
     (ChatState.pendingUserMessage st) (ChatState.selectedModel st),
   Resolved tt).

Definition setStreamingContent (v : string) : M unit := fun st =>
  (ChatState.mk (ChatState.sessions st) (ChatState.currentSession st)
     (ChatState.nodes st) (ChatState.activeNodeId st)
     (ChatState.currentPath st) (ChatState.isStreaming st) v
     (ChatState.pendingUserMessage st) (ChatState.selectedModel st),
   Resolved tt).

Definition setPendingUserMessage (v : option string) : M unit := fun st =>
  (ChatState.mk (ChatState.sessions st) (ChatState.currentSession st)
     (ChatState.nodes st) (ChatState.activeNodeId st)
     (ChatState.currentPath st) (ChatState.isStreaming st)
     (ChatState.streamingContent st) v (ChatState.selectedModel st),
   Resolved tt).

(** [array[i]] for a numeric index: [undefined] outside the array. *)
Definition array_get {A} (l : list A) (i : Z) : option A :=
  if (i <? 0)%Z then None else nth_error l (Z.to_nat i).

(** [new Set(ids).has(x)] *)
Definition set_has (ids : list string) (x : string) : bool :=
  existsb (String.eqb x) ids.

(** [xs.filter(Boolean)] on an array of [string | null]. *)
Fixpoint filter_Boolean (xs : list (option string)) : list string :=
  match xs with
  | [] => []
  | Some s :: rest =>
      if truthy s then s :: filter_Boolean rest else filter_Boolean rest
  | None :: rest => filter_Boolean rest
  end.

(** The accumulator of [for await (const chunk of ...)] in [sendMessage]
    and [regenerate]: the locals [newAssistantNodeId] and [fullContent]. *)
Definition Acc : Type := (option string * string)%type.

Section Client.

(** [new Date(s)] as a number of milliseconds; [None] is the [NaN] of an
    invalid date. *)
Variable Date_value : string -> option Z.
Variable api : Api.t.

(** [new Date(a) > new Date(b)]: false as soon as one side is [NaN]. *)
Definition Date_gt (a b : string) : bool :=
  match Date_value a, Date_value b with
  | Some x, Some y => (y <? x)%Z
  | _, _ => false
  end.

Definition loadSessions : M unit :=
  data <- await (Api.getSessions api) ;;
  setSessions data.

(** The hook closes over [currentSession]; the state at the call. *)
Definition refreshTree : M unit := fun st =>
  match ChatState.currentSession st with
  | None => ret tt st
  | Some cs =>
      (tree <- await (Api.getSessionTree api (Session.id cs)) ;;
       setNodes (TreeResponse.nodes tree)) st
  end.

Definition updatePath (nodeId : string) : M unit :=
  path <- await (Api.getNodePath api nodeId) ;;
  setCurrentPath path ;;
  setActiveNodeId (Some nodeId).

(** The three local constants of [selectSession]. *)
Definition parentIds (nodes : list Node.t) : list string :=
  filter_Boolean (map Node.parent_id nodes).

Definition leafNodes (nodes : list Node.t) : list Node.t :=
  filter (fun n => negb (set_has (parentIds nodes) (Node.id n))) nodes.

(** The callback of [reduce]. *)
Definition later (a b : Node.t) : Node.t :=
  if Date_gt (Node.created_at a) (Node.created_at b) then a else b.

(** [leafNodes.reduce(later)] on a non-empty array. *)
Definition latestLeaf (first : Node.t) (rest : list Node.t) : Node.t :=
  fold_left later rest first.

Definition selectSession (session : Session.t) : M unit :=
  setCurrentSession (Some session) ;;
  tree <- await (Api.getSessionTree api (Session.id session)) ;;
  setNodes (TreeResponse.nodes tree) ;;
  if (0 <? length (TreeResponse.nodes tree))%nat then
    match leafNodes (TreeResponse.nodes tree) with
    | first :: rest => updatePath (Node.id (latestLeaf first rest))
    | [] => ret tt
    end
  else
    (setCurrentPath [] ;;
     setActiveNodeId None).

(** [currentSession?.id === sessionId] *)
Definition is_current (cur : option Session.t) (sessionId : string) : bool :=
  match cur with
  | Some cs => String.eqb (Session.id cs) sessionId
  | None => false
  end.

Definition deleteSession (sessionId : string) : M unit := fun st =>
  (await (Api.deleteSession api sessionId) ;;
   (if is_current (ChatState.currentSession st) sessionId then
      setCurrentSession None ;;
      setNodes [] ;;
      setCurrentPath [] ;;
      setActiveNodeId None
    else ret tt) ;;
   loadSessions) st.

(** The body of the [for await] loop. *)
Definition consume_chunk (acc : Acc) (chunk : ChatStreamChunk.t) : M Acc :=
  let newNodeId :=
    if truthy (ChatStreamChunk.node_id chunk)
    then Some (ChatStreamChunk.node_id chunk) else fst acc in
  if negb (ChatStreamChunk.done chunk) then
    let fullContent := (snd acc ++ ChatStreamChunk.token chunk)%string in
    setStreamingContent fullContent ;;
    ret (newNodeId, fullContent)
  else ret (newNodeId, snd acc).

Fixpoint consume_events (acc : Acc) (events : list ChatStreamChunk.t)
    : M Acc :=
  match events with
  | [] => ret acc
  | chunk :: rest =>
      acc' <- consume_chunk acc chunk ;;
      consume_events acc' rest
  end.

(** The loop with its end: the generator returns, or throws. *)
Definition for_await (stream : ChatStream.t) : M Acc :=
  acc <- consume_events (None, "") (ChatStream.events stream) ;;
  await (ChatStream.closes stream) ;;
  ret acc.

Definition sendMessage (content : string) : M unit := fun st =>
  match ChatState.currentSession st with
  | None => ret tt st
  | Some cs =>
      if ChatState.isStreaming st then ret tt st
      else
        (setIsStreaming true ;;
         setStreamingContent "" ;;
         setPendingUserMessage (Some content) ;;
         try_finally
           (let parentId := ChatState.activeNodeId st in
            acc <- for_await
                     (Api.streamChat api (Session.id cs) content parentId
                        (ChatState.selectedModel st)) ;;
            refreshTree ;;
            match or_null (fst acc) with
            | Some nodeId => updatePath nodeId
            | None => ret tt
            end)
           (setIsStreaming false ;;
            setStreamingContent "" ;;
            setPendingUserMessage None)) st
  end.

Definition regenerate (nodeId : string) : M unit := fun st =>
  if ChatState.isStreaming st then ret tt st
  else
    (setIsStreaming true ;;
     setStreamingContent "" ;;
     try_finally
       (acc <- for_await
                 (Api.streamBranch api nodeId (ChatState.selectedModel st)) ;;
        refreshTree ;;
        match or_null (fst acc) with
        | Some newNodeId => updatePath newNodeId
        | None => ret tt
        end)
       (setIsStreaming false ;;
        setStreamingContent "")) st.

Definition navigateToNode (nodeId : string) : M unit :=
  updatePath nodeId.

End Client.

(* ===================================================================== *)
(** * The [MessageBubble] component *)
(* ===================================================================== *)

Module MessageBubble.

(** What a click handler ends in: nothing, a call of [onNavigate], or the
    [TypeError] of reading [.id] of [undefined]. *)
Inductive Outcome : Type :=
| NoOp
| Navigate (nodeId : string)
| TypeError.

(** [const isUser = node.role === 'user'] *)
Definition isUser (node : Node.t) : bool := Role_eqb (Node.role node) user.

Definition handlePrevSibling (siblings : option SiblingsResponse.t)
    : Outcome :=
  match siblings with
  | Some s =>
      if (0 <? SiblingsResponse.current_index s)%Z then
        match array_get (SiblingsResponse.siblings s)
                (SiblingsResponse.current_index s - 1) with
        | Some prevSibling => Navigate (Node.id prevSibling)
        | None => TypeError
        end
      else NoOp
  | None => NoOp
  end.

Definition handleNextSibling (siblings : option SiblingsResponse.t)
    : Outcome :=
  match siblings with
  | Some s =>
      if (SiblingsResponse.current_index s <? SiblingsResponse.total s - 1)%Z
      then
        match array_get (SiblingsResponse.siblings s)
                (SiblingsResponse.current_index s + 1) with
        | Some nextSibling => Navigate (Node.id nextSibling)
        | None => TypeError
        end
      else NoOp
  | None => NoOp
  end.

(** [const hasSiblings = siblings && siblings.total > 1] *)
Definition hasSiblings (siblings : option SiblingsResponse.t) : bool :=
  match siblings with
  | Some s => (1 <? SiblingsResponse.total s)%Z
  | None => false
  end.

(** [{!isUser && hasSiblings && (<div className="sibling-nav">...)}] *)
Definition showsSiblingNav (node : Node.t)
    (siblings : option SiblingsResponse.t) : bool :=
  negb (isUser node) && hasSiblings siblings.

(** The [disabled] attributes of the two buttons of the navigation. *)
Definition prevDisabled (s : SiblingsResponse.t) : bool :=
  (SiblingsResponse.current_index s =? 0)%Z.

Definition nextDisabled (s : SiblingsResponse.t) : bool :=
  (SiblingsResponse.current_index s =? SiblingsResponse.total s - 1)%Z.

(** [{!isUser && !isStreaming && (<div className="message-actions">...)}];
    the optional prop [isStreaming] is falsy when absent. *)
Definition showsRegenerate (node : Node.t) (isStreaming : option bool)
    : bool :=
  negb (isUser node) &&
  negb (match isStreaming with Some b => b | None => false end).

(** [{hasSiblings && (<span className="branch-indicator">...)}] inside the
    actions. *)
Definition showsBranchIndicator (node : Node.t) (isStreaming : option bool)
    (siblings : option SiblingsResponse.t) : bool :=
  showsRegenerate node isStreaming && hasSiblings siblings.

End MessageBubble.

(* ===================================================================== *)
(** * The [SplitView] component (Diverge Mode) *)
(* ===================================================================== *)

Module SplitView.

Record ThreadState : Type := mkThread {
  input : string;
  messages : list Node.t;
  isStreaming : bool;
  streamingContent : string
}.

(** [useState] initial value of both threads. *)
Definition emptyThread : ThreadState := mkThread "" [] false "".

(** The arguments of one call of [api.streamChat]. *)
Record Request : Type := mkRequest {
  req_sessionId : string;
  req_content : string;
  req_parentId : option string;
  req_model : string
}.

(** Where [streamLeft] (or [streamRight]) stands: inside its
    [for await], returned, or rejected. *)
Inductive Phase : Type := Running | Returned | Failed.

(** One of the two async closures: its local [fullContent] and phase. *)
Record Task : Type := mkTask {
  fullContent : string;
  phase : Phase
}.

(** The component while [Promise.all] is pending. *)
Record View : Type := mkView {
  leftThread : ThreadState;
  rightThread : ThreadState;
  leftTask : Task;
  rightTask : Task;
  refreshes : nat
}.

Inductive Side : Type := Left | Right.

(** What can happen next to one stream: its generator yields a chunk,
    returns, or throws. *)
Inductive Event : Type :=
| Chunk (chunk : ChatStreamChunk.t)
| Return
| Throw.

(** [setThread((t) => ({ ...t, streamingContent: fullContent }))] *)
Definition withContent (t : ThreadState) (c : string) : ThreadState :=
  mkThread (input t) (messages t) (isStreaming t) c.

(** [setThread((t) => ({ ...t, isStreaming: true, streamingContent: '' }))] *)
Definition started (t : ThreadState) : ThreadState :=
  mkThread (input t) (messages t) true "".

(** The [finally] block. *)
Definition finished (t : ThreadState) : ThreadState :=
  mkThread "" (messages t) false "".

(** [handleSendBoth] up to [Promise.all]: the two guards, the snapshot of
    the parent id, the two threads marked as streaming, and the two
    requests the closures will issue. [None] is an early [return]. *)
Definition handleSendBoth (sessionId : string) (parentNode : option Node.t)
    (model : string) (left right : ThreadState)
    : option (View * Request * Request) :=
  if negb (trim_truthy (input left)) || negb (trim_truthy (input right))
  then None
  else if isStreaming left || isStreaming right then None
  else
    let parentId := or_null (option_map Node.id parentNode) in
    Some (mkView (started left) (started right)
            (mkTask "" Running) (mkTask "" Running) 0,
          mkRequest sessionId (input left) parentId model,
          mkRequest sessionId (input right) parentId model).

(** One stream and its thread react to an event of that stream; a task
    that is no longer running receives nothing. The result also tells
    whether [onRefresh] was called. *)
Definition task_step (e : Event) (tk : Task) (t : ThreadState)
    : Task * ThreadState * bool :=
  match phase tk with
  | Running =>
      match e with
      | Chunk chunk =>
          if negb (ChatStreamChunk.done chunk) then
            let fc := (fullContent tk ++ ChatStreamChunk.token chunk)%string in
            (mkTask fc Running, withContent t fc, false)
          else (tk, t, false)
      | Return => (mkTask (fullContent tk) Returned, finished t, true)
      | Throw => (mkTask (fullContent tk) Failed, finished t, false)
      end
  | _ => (tk, t, false)
  end.

Definition bump (b : bool) (n : nat) : nat := if b then S n else n.

(** One step of the interleaving: the event belongs to one side. *)
Definition step (v : View) (se : Side * Event) : View :=
  match se with
  | (Left, e) =>
      let '(tk, t, r) := task_step e (leftTask v) (leftThread v) in
      mkView t (rightThread v) tk (rightTask v) (bump r (refreshes v))
  | (Right, e) =>
      let '(tk, t, r) := task_step e (rightTask v) (rightThread v) in
      mkView (leftThread v) t (leftTask v) tk (bump r (refreshes v))
  end.

(** Any schedule of the events of the two streams. *)
Definition run (v : View) (schedule : list (Side * Event)) : View :=
  fold_left step schedule v.

(** One stream run alone. *)
Definition run_task (tk : Task) (t : ThreadState) (events : list Event)
    : Task * ThreadState :=
  fold_left (fun s e => let '(tk', t', _) := task_step e (fst s) (snd s) in
                        (tk', t'))
    events (tk, t).

Definition is_left (se : Side * Event) : bool :=
  match fst se with Left => true | Right => false end.

Definition is_right (se : Side * Event) : bool := negb (is_left se).

(** The events of one side, in their order of arrival. *)
Definition events_of (side : Side) (schedule : list (Side * Event))
    : list Event :=
  map snd (filter (match side with Left => is_left | Right => is_right end)
             schedule).

(** The tokens a stream delivered before it ended. *)
Fixpoint delivered (events : list Event) : string :=
  match events with
  | [] => ""
  | Chunk chunk :: rest =>
      if negb (ChatStreamChunk.done chunk)
      then (ChatStreamChunk.token chunk ++ delivered rest)%string
      else delivered rest
  | (Return | Throw) :: _ => ""
  end.

End SplitView.

(* ===================================================================== *)
(** * The conversation tree engine of the backend *)
(* ===================================================================== *)

(** The backend is reached through [fetch] only; what follows models it
    from its specification. *)

Module Engine.

(** Modelled from the spec: the error taxonomy of the tree engine (the
    backend's own error type is not part of the client sources). *)
Inductive Error : Type :=
| NotFound
| InvalidState
| InvalidRole
| Conflict
| CorruptTree
| BackendFailure
| EmptyTree.

Definition Res (A : Type) : Type := (Error + A)%type.

(** Modelled from the spec: the Node Store, the durable table of nodes.
    The nodes are kept in creation order, oldest first, so the position
    of a node is its creation sequence number; [pending] holds the ids of
    the nodes still streaming. *)
Record Store : Type := mkStore {
  sessions : list string;
  nodes : list Node.t;
  pending : list string
}.

(** Modelled from the spec: the test "this node has identity [node_id]". *)
Definition has_id (node_id : string) (n : Node.t) : bool :=
  String.eqb (Node.id n) node_id.

(** Modelled from the spec: [getNode(id)], [None] standing for
    [NotFound]. *)
Definition getNode (st : Store) (node_id : string) : option Node.t :=
  find (has_id node_id) (nodes st).

(** Modelled from the spec: [listNodes(session_id)]. *)
Definition listNodes (st : Store) (session_id : string) : list Node.t :=
  filter (fun n => String.eqb (Node.session_id n) session_id) (nodes st).

(** Modelled from the spec: [sessionExists(id)] of the Session Registry. *)
Definition sessionExists (st : Store) (session_id : string) : bool :=
  existsb (String.eqb session_id) (sessions st).

(** Modelled from the spec: [createNode(session_id, parent_id, role,
    content, model)]. It fails with [InvalidState] when the session does
    not exist and with [NotFound] when a non-null parent does not resolve
    within the session. The generated identity [new_id] and the clock
    [now] are arguments. A failure leaves the store as it was. *)
Definition createNode (st : Store) (new_id now : string)
    (session_id : string) (parent_id : option string) (role : Role)
    (content : string) (model : option string)
    : Store * Res Node.t :=
  if negb (sessionExists st session_id) then (st, inl InvalidState)
  else
    let resolves :=
      match parent_id with
      | None => true
      | Some p =>
          match getNode st p with
          | Some pn => String.eqb (Node.session_id pn) session_id
          | None => false
          end
      end in
    if negb resolves then (st, inl NotFound)
    else
      let n := Node.mk new_id session_id parent_id role content now model
                 false in
      (mkStore (sessions st) (nodes st ++ [n]) (pending st), inr n).

(** Modelled from the spec: a node enters its pending sub-state. *)
Definition mark_pending (st : Store) (node_id : string) : Store :=
  mkStore (sessions st) (nodes st) (node_id :: pending st).

(** Modelled from the spec: [branch(node_id, model)], the regeneration
    of an assistant turn. Given an existing assistant node it creates a
    new, pending, empty assistant sibling under the same parent; it
    fails with [NotFound] on an unknown node and with [InvalidRole] on a
    node that is not an assistant turn, before any mutation. *)
Definition branch (st : Store) (new_id now : string) (node_id : string)
    (model : string) : Store * Res Node.t :=
  match getNode st node_id with
  | None => (st, inl NotFound)
  | Some n =>
      match Node.role n with
      | assistant =>
          match createNode st new_id now (Node.session_id n)
                  (Node.parent_id n) assistant "" (Some model) with
          | (st', inr child) => (mark_pending st' (Node.id child), inr child)
          | (st', inl e) => (st', inl e)
          end
      | user | system => (st, inl InvalidRole)
      end
  end.

(** Modelled from the spec: the walk of [pathTo] along the parent
    pointers. [cur] is the node reached, [acc] the part of the path
    below it. A parent already on the path (a cycle) or absent from the
    store (a dangling reference) is reported as [CorruptTree]. The
    outer [option] is [None] only when the fuel runs out. *)
Fixpoint walk (st : Store) (fuel : nat) (cur : Node.t) (acc : list Node.t)
    : option (Res (list Node.t)) :=
  match Node.parent_id cur with
  | None => Some (inr (cur :: acc))
  | Some p =>
      if existsb (has_id p) (cur :: acc) then Some (inl CorruptTree)
      else
        match getNode st p with
        | None => Some (inl CorruptTree)
        | Some pn =>
            match fuel with
            | O => None
            | S fuel' => walk st fuel' pn (cur :: acc)
            end
        end
  end.

(** Modelled from the spec: [pathTo(node_id)], the path root first. The
    walk visits each node at most once, so the number of nodes is fuel
    enough. *)
Definition pathTo (st : Store) (node_id : string)
    : option (Res (list Node.t)) :=
  match getNode st node_id with
  | None => Some (inl NotFound)
  | Some n => walk st (length (nodes st)) n []
  end.

(** The [k]-th ancestor of a node id along the parent pointers. *)
Fixpoint ancestor (st : Store) (k : nat) (node_id : string)
    : option string :=
  match k with
  | O => Some node_id
  | S k' =>
      match getNode st node_id with
      | Some n =>
          match Node.parent_id n with
          | Some p => ancestor st k' p
          | None => None
          end
      | None => None
      end
  end.

(** A cycle met on the way up from [node_id]: some ancestor is met
    again further up. *)
Definition on_cycle (st : Store) (node_id : string) : Prop :=
  exists i j x, (i < j)%nat /\ ancestor st i node_id = Some x /\
                ancestor st j node_id = Some x.

(** Consecutive nodes of a path are parent and child. *)
Fixpoint linked (path : list Node.t) : Prop :=
  match path with
  | [] => True
  | a :: rest =>
      match rest with
      | [] => True
      | b :: _ => Node.parent_id b = Some (Node.id a) /\ linked rest
      end
  end.

(** [path] runs from a root of the store down to [n]. *)
Definition root_path (st : Store) (path : list Node.t) (n : Node.t) : Prop :=
  (exists r, hd_error path = Some r /\ Node.parent_id r = None) /\
  (exists above, path = above ++ [n]) /\
  linked path /\
  NoDup (map Node.id path) /\
  Forall (fun m => In m (nodes st)) path.

(** Identities are unique. *)
Definition unique_ids (st : Store) : Prop := NoDup (map Node.id (nodes st)).

(** The invariant kept by construction: the parent of a node exists, and
    some depth grows from parent to child, so no cycle can form. *)
Definition tree_invariant (st : Store) : Prop :=
  exists depth : string -> nat,
    forall n p, In n (nodes st) -> Node.parent_id n = Some p ->
                (exists pn, In pn (nodes st) /\ Node.id pn = p) /\
                (depth p < depth (Node.id n))%nat.

Section Ordering.

(** The instant a [created_at] denotes ([None]: not a date). *)
Variable Date_value : string -> option Z.

(** Modelled from the spec: [created_at] ascending; what is not a date
    sorts first. *)
Definition created_le (a b : Node.t) : bool :=
  match Date_value (Node.created_at a), Date_value (Node.created_at b) with
  | Some x, Some y => (x <=? y)%Z
  | None, _ => true
  | Some _, None => false
  end.

(** The order of the siblings as a relation. *)
Definition by_created (a b : Node.t) : Prop := created_le a b = true.

(** Modelled from the spec: insertion in a list ordered by [created_at],
    before the first node that is not earlier. *)
Fixpoint insert_by_created (x : Node.t) (l : list Node.t) : list Node.t :=
  match l with
  | [] => [x]
  | y :: l' =>
      if created_le x y then x :: y :: l' else y :: insert_by_created x l'
  end.

(** Modelled from the spec: the ordering by [created_at], a stable sort:
    among equal instants the store order, that is the creation sequence,
    decides. *)
Definition sort_by_created (l : list Node.t) : list Node.t :=
  fold_right insert_by_created [] l.

(** Modelled from the spec: [m] shares the parent of [n] (for a root: [m]
    is a root of the same session). *)
Definition same_parent (n m : Node.t) : bool :=
  String.eqb (Node.session_id m) (Node.session_id n) &&
  match Node.parent_id n, Node.parent_id m with
  | None, None => true
  | Some p, Some q => String.eqb p q
  | _, _ => false
  end.

(** Modelled from the spec: the zero-based index of a node in a list. *)
Fixpoint index_of (node_id : string) (l : list Node.t) : nat :=
  match l with
  | [] => O
  | m :: rest => if has_id node_id m then O else S (index_of node_id rest)
  end.

(** Modelled from the spec: [siblingsOf(node_id)]: the nodes sharing
    the node's parent (for a root, the roots of its session), by
    [created_at] ascending, with the index of the node and the count. *)
Definition siblingsOf (st : Store) (node_id : string)
    : Res SiblingsResponse.t :=
  match getNode st node_id with
  | None => inl NotFound
  | Some n =>
      let sibs := sort_by_created (filter (same_parent n) (nodes st)) in
      inr (SiblingsResponse.mk sibs
             (Z.of_nat (index_of node_id sibs))
             (Z.of_nat (length sibs)))
  end.

(** Modelled from the spec: a leaf, a node that no node of the list names
    as its parent. *)
Definition is_leaf (nodes : list Node.t) (n : Node.t) : bool :=
  negb (existsb (fun m => match Node.parent_id m with
                          | Some p => String.eqb p (Node.id n)
                          | None => false
                          end) nodes).

(** Modelled from the spec: the later of two nodes; on equal instants
    the second one. *)
Definition newer (a b : Node.t) : Node.t :=
  if created_le a b then b else a.

(** Modelled from the spec: [defaultLeaf(session_id)]: among the
    leaves of the session the one with the greatest [created_at];
    [EmptyTree] when the session has no nodes. A session whose nodes
    are all parents has a cycle. *)
Definition defaultLeaf (st : Store) (session_id : string) : Res Node.t :=
  match listNodes st session_id with
  | [] => inl EmptyTree
  | ns =>
      match filter (is_leaf ns) ns with
      | [] => inl CorruptTree
      | first :: rest => inr (fold_left newer rest first)
      end
  end.

End Ordering.

(** Modelled from the spec: what the model backend's [generate] does:
    the tokens it produced, and whether it reached its end marker or
    failed on the way. *)
Record Generation : Type := mkGeneration {
  tokens : list string;
  failed : bool
}.

(** Modelled from the spec: the event of one token, with the owning node
    id. *)
Definition token_event (node_id : string) (tok : string)
    : ChatStreamChunk.t :=
  ChatStreamChunk.mk tok node_id None false None None.

(** Modelled from the spec: [complete(context, pending_node_id, model)]
    seen as its sequence of token-events: one event per token, carrying
    the token and the owning node id, then one terminal event carrying
    the content the node is sealed with. The terminal event has its
    [error] field set when the backend failed or produced nothing. *)
Definition complete (node_id : string) (g : Generation)
    : list ChatStreamChunk.t :=
  let sealed := join (tokens g) in
  map (token_event node_id) (tokens g) ++
  [ChatStreamChunk.mk "" node_id None true (Some sealed)
     (if failed g || negb (truthy sealed) then Some true else None)].

End Engine.

(* ===================================================================== *)
(** * Vocabulary of the statements *)
(* ===================================================================== *)

(** The tokens of the events that are not terminal, concatenated in their
    order of arrival. *)
Definition received (events : list ChatStreamChunk.t) : string :=
  join (map ChatStreamChunk.token
          (filter (fun c => negb (ChatStreamChunk.done c)) events)).

(** The four cells that hold the view of the current session. *)
Definition session_view (st : ChatState.t)
    : option Session.t * list Node.t * list Node.t * option string :=
  (ChatState.currentSession st, ChatState.nodes st,
   ChatState.currentPath st, ChatState.activeNodeId st).

(** A leaf of a node list, said with the words of the data model: no node
    of the list has it as its parent. *)
Definition childless (nodes : list Node.t) (n : Node.t) : Prop :=
  forall m, In m nodes -> Node.parent_id m <> Some (Node.id n).

(** No cycle among the nodes: some depth grows from parent to child. *)
Definition acyclic (nodes : list Node.t) : Prop :=
  exists depth : Node.t -> nat,
    forall c p, In c nodes -> In p nodes ->
                Node.parent_id c = Some (Node.id p) ->
                (depth p < depth c)%nat.

(** The instant of a node, when its [created_at] is a date. *)
Definition has_instant (Date_value : string -> option Z) (n : Node.t) (t : Z)
    : Prop :=
  Date_value (Node.created_at n) = Some t.

(** A toy [JSON.parse] for concrete runs: the two boolean literals. *)
Definition parse_bool (line : string) : option bool :=
  if String.eqb line "true" then Some true
  else if String.eqb line "false" then Some false
  else None.

(** A toy [Date]: a [created_at] written as a number of milliseconds in
    decimal digits; anything else is not a date. *)
Fixpoint digits_value (s : string) (acc : Z) : option Z :=
  match s with
  | EmptyString => Some acc
  | String c rest =>
      let n := nat_of_ascii c in
      if ((48 <=? n) && (n <=? 57))%nat
      then digits_value rest (10 * acc + Z.of_nat (n - 48))
      else None
  end.

Definition epoch_ms (s : string) : option Z :=
  match s with
  | EmptyString => None
  | _ => digits_value s 0
  end.

(** ** A small conversation

    The session ["S"] of the end-to-end scenario: the user turn [U1]
    ("Hello") with two assistant replies, [A1] and its regeneration [A2];
    and a system message for the bubble. *)

Definition U1 : Node.t :=
  Node.mk "u1" "S" None user "Hello" "1000" None true.

Definition A1 : Node.t :=
  Node.mk "a1" "S" (Some "u1") assistant "Hi there" "2000" (Some "m") false.

Definition A2 : Node.t :=
  Node.mk "a2" "S" (Some "u1") assistant "Hey you" "3000" (Some "m") true.

Definition Sys1 : Node.t :=
  Node.mk "s1" "S" None system "Be brief" "500" None true.

Definition sample_store : Engine.Store :=
  Engine.mkStore ["S"; "E"] [U1; A1; A2] [].

(** Two nodes that name each other as parent. *)
Definition corrupt_store : Engine.Store :=
  Engine.mkStore ["S"]
    [Node.mk "x" "S" (Some "y") user "" "1" None false;
     Node.mk "y" "S" (Some "x") assistant "" "2" None false] [].

Definition session_S : Session.t := Session.mk "S" "New Chat" "900" "3000".

Definition session_E : Session.t := Session.mk "E" "New Chat" "4000" "4000".

Definition sample_chunks : list ChatStreamChunk.t :=
  Engine.complete "a3" (Engine.mkGeneration ["Hey"; " you"] false).

(** A backend that serves [sample_store]. *)
Definition sample_api : Api.t :=
  Api.mk
    (Resolved [session_E])
    (fun _ => Resolved tt)
    (fun sid =>
       Resolved (TreeResponse.mk sid (Engine.listNodes sample_store sid)))
    (fun node_id =>
       match Engine.pathTo sample_store node_id with
       | Some (inr path) => Resolved path
       | _ => Rejected "404"
       end)
    (fun _ _ _ _ => ChatStream.mk sample_chunks (Resolved tt))
    (fun _ _ => ChatStream.mk sample_chunks (Resolved tt)).

(** A line of text with its newline. *)
Definition line (s : string) : string := (s ++ String nl "")%string.

(** A body read in three pieces: a line cut in two, a line that is not
    JSON, and a last line without its newline. *)
Definition sample_reads : list string :=
  ["tr"; ("ue" ++ String nl "fal")%string;
   ("se" ++ String nl (line "oops" ++ line "true" ++ "false"))%string].

Definition sample_siblings : SiblingsResponse.t :=
  SiblingsResponse.mk [A1; A2] 0 2.

Definition left_prompt : SplitView.ThreadState :=
  SplitView.mkThread "Explain" [] false "".

Definition right_prompt : SplitView.ThreadState :=
  SplitView.mkThread "Summarise" [] false "".

Definition chunk_of (tok : string) : ChatStreamChunk.t :=
  Engine.token_event "n" tok.

(** The right stream fails after one token, the left one goes on. *)
Definition sample_schedule : list (SplitView.Side * SplitView.Event) :=
  [(SplitView.Left, SplitView.Chunk (chunk_of "a"));
   (SplitView.Right, SplitView.Chunk (chunk_of "x"));
   (SplitView.Right, SplitView.Throw);
   (SplitView.Left, SplitView.Chunk (chunk_of "b"));
   (SplitView.Left, SplitView.Return)].

(* ===================================================================== *)
(** * More of the client *)
(* ===================================================================== *)

(** The responses of the backend to the two session calls of the [api]
    module that change a session. *)
Module SessionApi.
Record t : Type := mk {
  createSession : string -> Result Session.t;
  renameSession : string -> string -> Result Session.t
}.
End SessionApi.

(** [{ ...prev, name }] *)
Definition with_name (prev : Session.t) (name : string) : Session.t :=
  Session.mk (Session.id prev) name (Session.created_at prev)
    (Session.updated_at prev).

Section ClientSessions.

Variable Date_value : string -> option Z.
Variable api : Api.t.
Variable sapi : SessionApi.t.

(** [api.createSession(name: string = 'New Chat')] *)
Definition api_createSession (name : option string) : Result Session.t :=
  SessionApi.createSession sapi
    (match name with Some n => n | None => "New Chat" end).

Definition createNewSession (name : option string) : M Session.t :=
  session <- await (api_createSession name) ;;
  loadSessions api ;;
  selectSession Date_value api session ;;
  ret session.

(** The condition reads the [currentSession] the hook closed over, the
    updater [prev => prev ? { ...prev, name } : null] the cell itself. *)
Definition renameSession (sessionId name : string) : M unit := fun st =>
  (await (SessionApi.renameSession sapi sessionId name) ;;
   loadSessions api ;;
   if is_current (ChatState.currentSession st) sessionId then
     (fun st1 =>
        setCurrentSession
          (option_map (fun prev => with_name prev name)
             (ChatState.currentSession st1)) st1)
   else ret tt) st.

End ClientSessions.

(** ** [App] and [ChatInterface] *)

Module App.

(** [getParentForSplit]: the last node of the current path, [null] on an
    empty path. *)
Definition getParentForSplit (currentPath : list Node.t) : option Node.t :=
  if (length currentPath =? 0)%nat then None
  else array_get currentPath (Z.of_nat (length currentPath) - 1).

End App.

Module ChatInterface.

(** [disabled={isStreaming || currentPath.length === 0}] of the split
    button. *)
Definition splitDisabled (isStreaming : bool) (currentPath : list Node.t)
    : bool :=
  isStreaming || (length currentPath =? 0)%nat.

End ChatInterface.

(** ** More of [SplitView] *)

(** [xs.slice(-n)] for a positive [n]: the last [n] elements, all of them
    when there are fewer. *)
Definition slice_last {A} (n : nat) (xs : list A) : list A :=
  skipn (length xs - n) xs.

(** [const contextMessages = currentPath.slice(-4)] *)
Definition contextMessages (currentPath : list Node.t) : list Node.t :=
  slice_last 4 currentPath.

(** A JavaScript string as the sequence of its UTF-16 code units: what
    [length] counts and [slice] cuts. *)
Definition CodeUnits : Type := list N.

(** ['...'] *)
Definition dots : CodeUnits := [46%N; 46%N; 46%N].

(** [s.slice(0, n)] followed by [s.length > n ? '...' : ''], the way the
    context messages ([n = 150]) and the graph nodes ([n = 100]) show a
    content. *)
Definition preview (n : nat) (s : CodeUnits) : CodeUnits :=
  firstn n s ++ (if (n <? length s)%nat then dots else []).

(** ** The [GraphView] component *)

Module GraphView.

(** A React Flow node before the layout: its id, the chat node spread in
    its data, and [isActive]. *)
Record FlowNode : Type := mkFlowNode {
  flow_id : string;
  data : Node.t;
  isActive : bool
}.

Record Edge : Type := mkEdge {
  id : string;
  source : string;
  target : string;
  animated : bool
}.

(** [node.id === activeNodeId] *)
Definition is_active_id (node_id : string) (activeNodeId : option string)
    : bool :=
  match activeNodeId with
  | Some a => String.eqb node_id a
  | None => false
  end.

Definition flowNodes (chatNodes : list Node.t) (activeNodeId : option string)
    : list FlowNode :=
  map (fun node =>
         mkFlowNode (Node.id node) node
           (is_active_id (Node.id node) activeNodeId))
      chatNodes.

(** [`${node.parent_id}-${node.id}`] *)
Definition edge_id (parent_id node_id : string) : string :=
  (parent_id ++ "-" ++ node_id)%string.

(** [chatNodes.filter((node) => node.parent_id).map((node) => ({...}))]:
    the filter keeps the nodes with a non-empty parent id, so the map
    finds one. *)
Definition flowEdges (chatNodes : list Node.t) (activeNodeId : option string)
    : list Edge :=
  flat_map (fun node =>
              match Node.parent_id node with
              | Some p =>
                  if truthy p then
                    [mkEdge (edge_id p (Node.id node)) p (Node.id node)
                       (is_active_id (Node.id node) activeNodeId)]
                  else []
              | None => []
              end)
           chatNodes.

End GraphView.

(** ** Vocabulary of the further statements *)

(** The state after [finally] of [sendMessage]: the three streaming cells
    reset, the view as given, the rest as in [st]. *)
Definition settled (st : ChatState.t) (nodes : list Node.t)
    (active : option string) (path : list Node.t)
    (pending : option string) : ChatState.t :=
  ChatState.mk (ChatState.sessions st) (ChatState.currentSession st) nodes
    active path false "" pending (ChatState.selectedModel st).

(** The node id the loop of [sendMessage] ends with: the one of the last
    chunk that carries a non-empty [node_id]. *)
Fixpoint last_node_id (start : option string)
    (events : list ChatStreamChunk.t) : option string :=
  match events with
  | [] => start
  | c :: rest =>
      last_node_id
        (if truthy (ChatStreamChunk.node_id c)
         then Some (ChatStreamChunk.node_id c) else start)
        rest
  end.

(** The edge the graph draws into [node] from its parent [p]. *)
Definition edge_of (activeNodeId : option string) (node : Node.t) (p : string)
    : GraphView.Edge :=
  GraphView.mkEdge (GraphView.edge_id p (Node.id node)) p (Node.id node)
    (GraphView.is_active_id (Node.id node) activeNodeId).

(** A node with a parent to draw an edge from. *)
Definition has_parent (node : Node.t) : bool :=
  match Node.parent_id node with
  | Some p => truthy p
  | None => false
  end.

(** The number of newlines of a text. *)
Fixpoint count_nl (s : string) : nat :=
  match s with
  | EmptyString => O
  | String c rest => (if Ascii.eqb c nl then 1 else 0) + count_nl rest
  end.

(** How a stream ended, read off its events: the first [Return] or
    [Throw] decides, and before it the stream is still running. *)
Fixpoint outcome (events : list SplitView.Event) : SplitView.Phase :=
  match events with
  | [] => SplitView.Running
  | SplitView.Chunk _ :: rest => outcome rest
  | SplitView.Return :: _ => SplitView.Returned
  | SplitView.Throw :: _ => SplitView.Failed
  end.

(** What the thread of a stream holds after the events of that stream,
    starting from the thread [t0] the user filled in: while the stream
    runs, the prompt as typed, the streaming mark, and the tokens
    delivered so far as streaming content; once it has ended, an empty
    prompt, no mark and no content. *)
Definition thread_after (t0 : SplitView.ThreadState)
    (events : list SplitView.Event) : SplitView.ThreadState :=
  match outcome events with
  | SplitView.Running =>
      SplitView.mkThread (SplitView.input t0) (SplitView.messages t0) true
        (SplitView.delivered events)
  | _ => SplitView.mkThread "" (SplitView.messages t0) false ""
  end.

(** A text without a newline. *)
Definition no_newline (s : string) : Prop := count_nl s = O.

(** The text made of the given lines, each followed by its newline, and
    of a last piece. *)
Fixpoint unlines (lines : list string) (tail : string) : string :=
  match lines with
  | [] => tail
  | l :: rest => (l ++ String nl (unlines rest tail))%string
  end.

(** One side of Diverge Mode is consistent: it streams while its task
    runs, and its input is cleared once the task has ended. *)
Definition side_consistent (tk : SplitView.Task) (t : SplitView.ThreadState)
    : Prop :=
  match SplitView.phase tk with
  | SplitView.Running => SplitView.isStreaming t = true
  | _ => SplitView.isStreaming t = false /\ SplitView.input t = "" /\
         SplitView.streamingContent t = ""
  end.

Definition returned (tk : SplitView.Task) : nat :=
  match SplitView.phase tk with
  | SplitView.Returned => 1
  | _ => 0
  end.

(** ** More sample data *)

Definition sample_sapi : SessionApi.t :=
  SessionApi.mk
    (fun name => Resolved (Session.mk "E" name "4000" "4000"))
    (fun sid name => Resolved (Session.mk sid name "900" "5000")).

(** A backend whose stream breaks after the tokens. *)
Definition broken_api : Api.t :=
  Api.mk
    (Resolved [session_S])
    (fun _ => Resolved tt)
    (fun sid =>
       Resolved (TreeResponse.mk sid (Engine.listNodes sample_store sid)))
    (fun _ => Rejected "404")
    (fun _ _ _ _ => ChatStream.mk sample_chunks (Rejected "network error"))
    (fun _ _ => ChatStream.mk sample_chunks (Rejected "network error")).

(** A backend that serves the corrupt store, and one whose tree request
    fails. *)
Definition corrupt_api : Api.t :=
  Api.mk
    (Resolved [session_S])
    (fun _ => Resolved tt)
    (fun sid =>
       Resolved (TreeResponse.mk sid (Engine.listNodes corrupt_store sid)))
    (fun _ => Rejected "404")
    (fun _ _ _ _ => ChatStream.mk [] (Resolved tt))
    (fun _ _ => ChatStream.mk [] (Resolved tt)).

Definition failing_api : Api.t :=
  Api.mk
    (Rejected "offline")
    (fun _ => Rejected "offline")
    (fun _ => Rejected "offline")
    (fun _ => Rejected "offline")
    (fun _ _ _ _ => ChatStream.mk [] (Rejected "offline"))
    (fun _ _ => ChatStream.mk [] (Rejected "offline")).

(** The hook with the sample session open at [A1]. *)
Definition open_at_A1 : ChatState.t :=
  ChatState.mk [session_S] (Some session_S) [U1; A1] (Some "a1") [U1; A1]
    false "" None "m".

(** A backend that streams the reply [A2] to a message. *)
Definition reply_chunks : list ChatStreamChunk.t :=
  Engine.complete "a2" (Engine.mkGeneration ["Hey"; " you"] false).

Definition reply_api : Api.t :=
  Api.mk
    (Resolved [session_S])
    (fun _ => Resolved tt)
    (fun sid =>
       Resolved (TreeResponse.mk sid (Engine.listNodes sample_store sid)))
    (fun node_id =>
       match Engine.pathTo sample_store node_id with
       | Some (inr path) => Resolved path
       | _ => Rejected "404"
       end)
    (fun _ _ _ _ => ChatStream.mk reply_chunks (Resolved tt))
    (fun _ _ => ChatStream.mk reply_chunks (Resolved tt)).

(** The hook with the sample session open at [U1], before [A2] exists. *)
Definition open_at_U1 : ChatState.t :=
  ChatState.mk [session_S] (Some session_S) [U1; A1] (Some "u1") [U1]
    false "" None "m".

(** The two prompts of a Diverge run under [A1], user messages that are
    siblings, and what the backend answers for the first one. *)
Definition P1 : Node.t :=
  Node.mk "p1" "S" (Some "a1") user "Explain" "5000" None false.

Definition P2 : Node.t :=
  Node.mk "p2" "S" (Some "a1") user "Summarise" "5001" None false.

Definition siblings_of_P1 : SiblingsResponse.t :=
  SiblingsResponse.mk [P1; P2] 0 2.

(** Two leaves created at the same instant. *)
Definition B1 : Node.t :=
  Node.mk "b1" "S" (Some "u1") assistant "One" "2000" (Some "m") false.

Definition B2 : Node.t :=
  Node.mk "b2" "S" (Some "u1") assistant "Two" "2000" (Some "m") false.

(* ===================================================================== *)
(** * Properties *)
(* ===================================================================== *)

Lemma Role_eqb_eq a b : Role_eqb a b = true <-> a = b.
Proof. destruct a, b; simpl; split; congruence. Qed.

(** ** The stream parsers *)

Lemma split_nl_not_nil s : split_nl s <> [].
Proof.
  destruct s as [|c s]; simpl; [discriminate|].
  destruct (Ascii.eqb c nl); [discriminate|].
  destruct (split_nl s); discriminate.
Qed.

Lemma pop_value_last (l : list string) :
  l <> [] -> pop_value l = Some (last l "").
Proof.
  induction l as [|x l IH]; [congruence|]. intros _.
  destruct l as [|y l]; [reflexivity|].
  change (pop_value (x :: y :: l)) with (pop_value (y :: l)).
  change (last (x :: y :: l) "") with (last (y :: l) "").
  apply IH. discriminate.
Qed.

Lemma pop_or_empty_last (l : list string) :
  l <> [] -> pop_or_empty l = last l "".
Proof.
  intros H. unfold pop_or_empty. rewrite (pop_value_last l H).
  destruct (last l "") as [|c r]; reflexivity.
Qed.

(** Splitting a text in two: the lines of the first part but the last one
    are final, the last one is continued by the second part. *)
Lemma split_nl_app a b :
  split_nl (a ++ b)%string =
  removelast (split_nl a) ++ split_nl (last (split_nl a) "" ++ b)%string.
Proof.
  induction a as [|c a IH]; [reflexivity|].
  cbn [split_nl String.append].
  destruct (Ascii.eqb c nl) eqn:Hc.
  - rewrite IH.
    pose proof (split_nl_not_nil a) as Hne.
    destruct (split_nl a) as [|x l]; [congruence|]. reflexivity.
  - rewrite IH.
    pose proof (split_nl_not_nil a) as Hne.
    destruct (split_nl a) as [|x [|y l]]; [congruence| |].
    + cbn. rewrite Hc. reflexivity.
    + reflexivity.
Qed.

(** The piece kept in the buffer holds no newline. *)
Lemma split_nl_last s :
  split_nl (last (split_nl s) "") = [last (split_nl s) ""].
Proof.
  induction s as [|c s IH]; [reflexivity|].
  cbn [split_nl]. destruct (Ascii.eqb c nl) eqn:Hc.
  - pose proof (split_nl_not_nil s) as Hne.
    destruct (split_nl s) as [|x l]; [congruence|]. exact IH.
  - pose proof (split_nl_not_nil s) as Hne.
    destruct (split_nl s) as [|x [|y l]]; [congruence| |].
    + cbn in *. rewrite Hc, IH. reflexivity.
    + exact IH.
Qed.

Lemma removelast_app_r {A} (l l' : list A) :
  l' <> [] -> removelast (l ++ l') = l ++ removelast l'.
Proof. intros H. apply removelast_app. exact H. Qed.

Lemma append_assoc (a b c : string) :
  ((a ++ b) ++ c = a ++ (b ++ c))%string.
Proof. induction a as [|x a IH]; simpl; [reflexivity | now rewrite IH]. Qed.

Lemma append_empty_r (a : string) : (a ++ "")%string = a.
Proof. induction a as [|x a IH]; simpl; [reflexivity | now rewrite IH]. Qed.

(** Where [split] cuts: a text without a newline is one piece, and a
    line followed by its newline is cut off as it is. *)
Lemma count_nl_cons c s :
  count_nl (String c s) = O -> Ascii.eqb c nl = false /\ count_nl s = O.
Proof.
  simpl. destruct (Ascii.eqb c nl); [discriminate | auto].
Qed.

Lemma split_nl_no_newline s : no_newline s -> split_nl s = [s].
Proof.
  unfold no_newline. induction s as [|c s IH]; intros Hs; [reflexivity|].
  destruct (count_nl_cons c s Hs) as [Hc Hs'].
  cbn [split_nl]. now rewrite Hc, (IH Hs').
Qed.

Lemma split_nl_line l rest :
  no_newline l ->
  split_nl (l ++ String nl rest) = l :: split_nl rest.
Proof.
  unfold no_newline. induction l as [|c l IH]; intros Hl.
  - reflexivity.
  - destruct (count_nl_cons c l Hl) as [Hc Hl'].
    cbn [String.append split_nl]. now rewrite Hc, (IH Hl').
Qed.

Lemma split_nl_unlines lines tail :
  Forall no_newline lines -> no_newline tail ->
  split_nl (unlines lines tail) = lines ++ [tail].
Proof.
  intros Hlines Htail. induction Hlines as [|l lines Hl _ IH].
  - now apply split_nl_no_newline.
  - cbn [unlines]. rewrite (split_nl_line l _ Hl), IH. reflexivity.
Qed.

Lemma complete_lines_unlines lines tail :
  Forall no_newline lines -> no_newline tail ->
  complete_lines (unlines lines tail) = lines.
Proof.
  intros Hlines Htail. unfold complete_lines.
  rewrite (split_nl_unlines lines tail Hlines Htail).
  apply removelast_last.
Qed.

(** Every text is made of lines and a last piece. *)
Lemma unlines_exists text :
  exists lines tail,
    Forall no_newline lines /\ no_newline tail /\ text = unlines lines tail.
Proof.
  induction text as [|c text (lines & tail & Hlines & Htail & ->)].
  - exists [], "". repeat split. constructor.
  - destruct (Ascii.eqb_spec c nl) as [->|Hc].
    + exists ("" :: lines), tail. repeat split; auto.
      constructor; [reflexivity | exact Hlines].
    + assert (Hcons : forall s, no_newline s -> no_newline (String c s)).
      { intros s Hs. unfold no_newline in *. simpl.
        destruct (Ascii.eqb_spec c nl); [contradiction | exact Hs]. }
      destruct lines as [|l lines].
      * exists [], (String c tail). repeat split; auto.
      * inversion Hlines; subst.
        exists (String c l :: lines), tail. repeat split; auto.
Qed.

Section StreamParserFacts.

Variable J : Type.
Variable JSON_parse : string -> option J.

(** [JSON.parse] throws on a text without a value. *)
Hypothesis blank_does_not_parse :
  forall line, trim_truthy line = false -> JSON_parse line = None.

Lemma yield_line_parsed line :
  yield_line J JSON_parse line = parsed_line J JSON_parse line.
Proof.
  unfold yield_line, parsed_line.
  destruct (trim_truthy line) eqn:Ht; [reflexivity|].
  now rewrite (blank_does_not_parse line Ht).
Qed.

Lemma yield_lines_parsed lines :
  yield_lines J JSON_parse lines = flat_map (parsed_line J JSON_parse) lines.
Proof.
  unfold yield_lines. induction lines as [|l ls IH]; simpl;
    [reflexivity | now rewrite yield_line_parsed, IH].
Qed.

(** The loop invariant: with a newline-free buffer, the loop yields what
    the complete lines of the buffer followed by the reads hold. *)
Lemma stream_loop_spec reads : forall buffer,
  split_nl buffer = [buffer] ->
  stream_loop J JSON_parse buffer reads =
  parsed_values J JSON_parse (buffer ++ join reads)%string.
Proof.
  induction reads as [|value rest IH]; intros buffer Hbuf.
  - simpl. unfold parsed_values, complete_lines.
    rewrite append_empty_r, Hbuf. reflexivity.
  - simpl stream_loop. unfold read_step.
    rewrite (pop_or_empty_last _ (split_nl_not_nil _)).
    rewrite (IH _ (split_nl_last _)).
    unfold parsed_values, complete_lines.
    simpl join. rewrite <- append_assoc.
    rewrite (split_nl_app (buffer ++ value) (join rest)).
    rewrite (removelast_app_r _ _ (split_nl_not_nil _)).
    rewrite flat_map_app, yield_lines_parsed. reflexivity.
Qed.

(** C8. For every sequence of reads of the response body: the text
    received is, in one way, a sequence of lines without a newline, each
    followed by its newline, and a last piece without a newline; each of
    the stream parsers yields exactly the values of those lines that parse
    as JSON, in their order of arrival. A line that does not parse is
    skipped and the following lines are still yielded, and the last piece,
    which no newline ends, is never yielded. *)
Theorem stream_parsers_yield_complete_lines
    (reads : list string) (sessionId content model nodeId : string)
    (parentId : option string) :
  (exists lines tail,
     (Forall no_newline lines /\ no_newline tail /\
      join reads = unlines lines tail) /\
     forall lines' tail',
       Forall no_newline lines' -> no_newline tail' ->
       join reads = unlines lines' tail' ->
       lines' = lines /\ tail' = tail) /\
  (forall lines tail,
     Forall no_newline lines -> no_newline tail ->
     join reads = unlines lines tail ->
     let expected := Yields (flat_map (parsed_line J JSON_parse) lines) in
     streamChat J JSON_parse sessionId content parentId model (Some reads)
       = expected /\
     streamBranch J JSON_parse nodeId model (Some reads) = expected /\
     streamContinue J JSON_parse nodeId content sessionId model (Some reads)
       = expected).
Proof.
  split.
  { destruct (unlines_exists (join reads))
      as (lines & tail & Hlines & Htail & Htext).
    exists lines, tail. split; [auto|].
    intros lines' tail' Hlines' Htail' Htext'.
    apply app_inj_tail.
    rewrite <- (split_nl_unlines lines tail Hlines Htail).
    rewrite <- (split_nl_unlines lines' tail' Hlines' Htail').
    now rewrite <- Htext, <- Htext'. }
  intros lines tail Hlines Htail Htext.
  assert (H : stream_loop J JSON_parse "" reads =
              flat_map (parsed_line J JSON_parse) lines).
  { rewrite (stream_loop_spec reads "" eq_refl). simpl.
    unfold parsed_values. rewrite Htext.
    now rewrite (complete_lines_unlines lines tail Hlines Htail). }
  cbv zeta. unfold streamChat, streamBranch, streamContinue, parse_body.
  rewrite H. repeat split.
Qed.

End StreamParserFacts.

(** ** The hook *)

Lemma join_app (a b : list string) :
  join (a ++ b) = (join a ++ join b)%string.
Proof.
  induction a as [|x a IH]; simpl; [reflexivity|].
  rewrite IH. symmetry. apply append_assoc.
Qed.

Lemma received_cons c events :
  received (c :: events) =
  if ChatStreamChunk.done c then received events
  else (ChatStreamChunk.token c ++ received events)%string.
Proof.
  unfold received. simpl. destruct (ChatStreamChunk.done c); reflexivity.
Qed.

Lemma consume_chunk_run acc c st :
  let newId := if truthy (ChatStreamChunk.node_id c)
               then Some (ChatStreamChunk.node_id c) else fst acc in
  consume_chunk acc c st =
  if ChatStreamChunk.done c then (st, Resolved (newId, snd acc))
  else
    let full := (snd acc ++ ChatStreamChunk.token c)%string in
    (fst (setStreamingContent full st), Resolved (newId, full)).
Proof.
  unfold consume_chunk. destruct (ChatStreamChunk.done c); reflexivity.
Qed.






Section ClientFacts.

Variable Date_value : string -> option Z.
Variable api : Api.t.

(** C10. [deleteSession(sessionId)], once the backend has deleted the
    session, clears the current session, the node list, the current path
    and the active node id when the deleted id is the id of the current
    session, leaves the four of them as they were when it is not, and
    reloads the session list in both cases. *)
Theorem deleteSession_clears_only_current
    (sessionId : string) (st : ChatState.t)
    (Hdeleted : Api.deleteSession api sessionId = Resolved tt) :
  let st' := fst (deleteSession api sessionId st) in
  ((exists cs, ChatState.currentSession st = Some cs /\
               Session.id cs = sessionId) ->
   session_view st' = (None, [], [], None)) /\
  ((forall cs, ChatState.currentSession st = Some cs ->
               Session.id cs <> sessionId) ->
   session_view st' = session_view st) /\
  (forall data, Api.getSessions api = Resolved data ->
                ChatState.sessions st' = data).
Proof.
  unfold deleteSession, loadSessions, bind, await. rewrite Hdeleted.
  cbv zeta. repeat split.
  - intros (cs & Hcs & Hid). unfold is_current. rewrite Hcs, Hid.
    rewrite String.eqb_refl. simpl.
    destruct (Api.getSessions api); reflexivity.
  - intros Hother.
    assert (Hcur : is_current (ChatState.currentSession st) sessionId = false).
    { unfold is_current. destruct (ChatState.currentSession st) as [cs|];
        [|reflexivity].
      apply String.eqb_neq. now apply Hother. }
    rewrite Hcur. simpl. destruct (Api.getSessions api); reflexivity.
  - intros data Hdata. rewrite Hdata.
    destruct (is_current (ChatState.currentSession st) sessionId); reflexivity.
Qed.

Lemma filter_Boolean_in x xs :
  In x (filter_Boolean xs) <-> In (Some x) xs /\ truthy x = true.
Proof.
  induction xs as [|[y|] xs IH]; simpl.
  - tauto.
  - destruct (truthy y) eqn:Hy; simpl; rewrite IH; split.
    + intros [->|[H1 H2]]; auto.
    + intros [[H|H] Ht]; [inversion H; auto | auto].
    + intros [H1 H2]; auto.
    + intros [[H|H] Ht]; [inversion H; congruence | auto].
  - rewrite IH. split; [intros [H1 H2]; auto|].
    intros [[H|H] Ht]; [discriminate | auto].
Qed.

Lemma set_has_in ids x : set_has ids x = true <-> In x ids.
Proof.
  unfold set_has. rewrite existsb_exists. split.
  - intros (y & Hy & Heq). apply String.eqb_eq in Heq. now subst.
  - intros H. exists x. split; [exact H | apply String.eqb_refl].
Qed.

Lemma parentIds_in nodes x :
  In x (parentIds nodes) <->
  truthy x = true /\ exists m, In m nodes /\ Node.parent_id m = Some x.
Proof.
  unfold parentIds. rewrite filter_Boolean_in, in_map_iff. split.
  - intros [(m & Hm & Hin) Ht]. eauto.
  - intros [Ht (m & Hin & Hm)]. eauto.
Qed.

Lemma leafNodes_in nodes n :
  In n (leafNodes nodes) <->
  In n nodes /\ ~ In (Node.id n) (parentIds nodes).
Proof.
  unfold leafNodes. rewrite filter_In, negb_true_iff.
  rewrite <- set_has_in, not_true_iff_false. tauto.
Qed.

(** In a tree whose parent ids are proper strings, the leaves picked by
    [selectSession] are the childless nodes. *)
Lemma leafNodes_childless nodes n :
  (forall m p, In m nodes -> Node.parent_id m = Some p -> p <> "") ->
  (In n (leafNodes nodes) <-> In n nodes /\ childless nodes n).
Proof.
  intros Hpid. rewrite leafNodes_in, parentIds_in. unfold childless.
  split; intros [Hin Hleaf]; split; auto.
  - intros m Hm Hp. apply Hleaf. split; [|eauto].
    specialize (Hpid m _ Hm Hp).
    destruct (Node.id n); [congruence | reflexivity].
  - intros [_ (m & Hm & Hp)]. exact (Hleaf m Hm Hp).
Qed.

Lemma exists_deepest (depth : Node.t -> nat) (l : list Node.t) :
  l <> [] -> exists x, In x l /\ forall y, In y l -> (depth y <= depth x)%nat.
Proof.
  induction l as [|a l IH]; [congruence|]. intros _.
  destruct l as [|b l].
  - exists a. split; [now left|]. intros y [<-|[]]. lia.
  - destruct IH as (x & Hx & Hmax); [discriminate|].
    destruct (le_lt_dec (depth a) (depth x)) as [Hle|Hlt].
    + exists x. split; [now right|]. intros y [<-|Hy]; auto.
    + exists a. split; [now left|]. intros y [<-|Hy]; [lia|].
      specialize (Hmax y Hy). lia.
Qed.

(** A non-empty tree without a cycle has a leaf. *)
Lemma leafNodes_not_nil nodes :
  nodes <> [] -> acyclic nodes -> leafNodes nodes <> [].
Proof.
  intros Hne (depth & Hdepth) Hnil.
  destruct (exists_deepest depth nodes Hne) as (x & Hx & Hmax).
  assert (Hleaf : In x (leafNodes nodes)).
  { apply leafNodes_in. split; [exact Hx|].
    rewrite parentIds_in. intros [_ (m & Hm & Hp)].
    specialize (Hdepth m x Hm Hx Hp). specialize (Hmax m Hm). lia. }
  rewrite Hnil in Hleaf. exact Hleaf.
Qed.

Lemma later_cases a b :
  later Date_value a b = a \/ later Date_value a b = b.
Proof. unfold later. destruct (Date_gt _ _ _); auto. Qed.

Lemma latestLeaf_in rest : forall first,
  In (latestLeaf Date_value first rest) (first :: rest).
Proof.
  unfold latestLeaf. induction rest as [|b rest IH]; intros first.
  - now left.
  - simpl fold_left. specialize (IH (later Date_value first b)).
    destruct IH as [H|H]; [|now right; right].
    destruct (later_cases first b) as [E|E]; rewrite E in H |- *;
      [now left | now right; left].
Qed.

Lemma later_dated a b ta tb :
  has_instant Date_value a ta -> has_instant Date_value b tb ->
  exists t, has_instant Date_value (later Date_value a b) t /\
            (ta <= t)%Z /\ (tb <= t)%Z.
Proof.
  unfold has_instant, later, Date_gt. intros Ha Hb. rewrite Ha, Hb.
  destruct (Z.ltb_spec tb ta); [exists ta | exists tb];
    repeat split; auto; lia.
Qed.

Lemma latestLeaf_latest rest : forall first t0,
  has_instant Date_value first t0 ->
  (forall n, In n rest -> exists t, has_instant Date_value n t) ->
  exists t, has_instant Date_value (latestLeaf Date_value first rest) t /\
            (t0 <= t)%Z /\
            forall n u, In n rest -> has_instant Date_value n u -> (u <= t)%Z.
Proof.
  unfold latestLeaf. induction rest as [|b rest IH]; intros first t0 H0 Hall.
  - exists t0. repeat split; [exact H0 | lia | intros n u []].
  - simpl fold_left.
    destruct (Hall b (or_introl eq_refl)) as (tb & Hb).
    destruct (later_dated first b t0 tb H0 Hb) as (t1 & H1 & Hle0 & Hleb).
    destruct (IH (later Date_value first b) t1 H1) as (t & Ht & Hle1 & Hrest).
    { intros n Hn. apply Hall. now right. }
    exists t. repeat split; [exact Ht | lia |].
    intros n u [<-|Hn] Hu.
    + unfold has_instant in *. rewrite Hb in Hu. inversion Hu; subst. lia.
    + eauto.
Qed.

(** What [selectSession] does once the tree is loaded and has a leaf. *)
Lemma selectSession_run session st tree first rest path :
  Api.getSessionTree api (Session.id session) = Resolved tree ->
  leafNodes (TreeResponse.nodes tree) = first :: rest ->
  Api.getNodePath api (Node.id (latestLeaf Date_value first rest))
    = Resolved path ->
  selectSession Date_value api session st =
  (ChatState.mk (ChatState.sessions st) (Some session)
     (TreeResponse.nodes tree)
     (Some (Node.id (latestLeaf Date_value first rest))) path
     (ChatState.isStreaming st) (ChatState.streamingContent st)
     (ChatState.pendingUserMessage st) (ChatState.selectedModel st),
   Resolved tt).
Proof.
  intros Htree Hl Hpath.
  unfold selectSession, bind, await, setCurrentSession, setNodes.
  rewrite Htree.
  destruct (TreeResponse.nodes tree) as [|n0 ns] eqn:Hn; [discriminate|].
  simpl Nat.ltb. cbv iota. rewrite Hl.
  unfold updatePath, bind, await. rewrite Hpath. reflexivity.
Qed.

(** C3. Selecting a session whose tree is not empty (a tree: no cycle,
    proper parent ids, proper dates) restores the view at a leaf, a node
    that no node of the session has as its parent, whose [created_at] is
    the greatest among all the leaves; the active node is that leaf and the
    current path is the path the backend gives for it. *)
Theorem selectSession_restores_latest_leaf
    (session : Session.t) (st : ChatState.t) (tree : TreeResponse.t)
    (Htree : Api.getSessionTree api (Session.id session) = Resolved tree)
    (Hnodes : TreeResponse.nodes tree <> [])
    (Hacyclic : acyclic (TreeResponse.nodes tree))
    (Hparents : forall m p, In m (TreeResponse.nodes tree) ->
                            Node.parent_id m = Some p -> p <> "")
    (Hdates : forall n, In n (TreeResponse.nodes tree) ->
                        exists t, has_instant Date_value n t)
    (Hpaths : forall n, In n (TreeResponse.nodes tree) ->
                        exists path,
                          Api.getNodePath api (Node.id n) = Resolved path) :
  exists leaf t path st',
    In leaf (TreeResponse.nodes tree) /\
    childless (TreeResponse.nodes tree) leaf /\
    has_instant Date_value leaf t /\
    (forall l u, In l (TreeResponse.nodes tree) ->
                 childless (TreeResponse.nodes tree) l ->
                 has_instant Date_value l u -> (u <= t)%Z) /\
    Api.getNodePath api (Node.id leaf) = Resolved path /\
    selectSession Date_value api session st = (st', Resolved tt) /\
    ChatState.activeNodeId st' = Some (Node.id leaf) /\
    ChatState.currentPath st' = path /\
    ChatState.nodes st' = TreeResponse.nodes tree /\
    ChatState.currentSession st' = Some session.
Proof.
  set (nodes := TreeResponse.nodes tree) in *.
  pose proof (leafNodes_not_nil nodes Hnodes Hacyclic) as Hleaves.
  destruct (leafNodes nodes) as [|first rest] eqn:Hl; [congruence|].
  set (leaf := latestLeaf Date_value first rest).
  assert (Hin : forall n, In n (first :: rest) ->
                          In n nodes /\ childless nodes n).
  { intros n Hn. apply (leafNodes_childless nodes n Hparents).
    now rewrite Hl. }
  destruct (Hin leaf (latestLeaf_in rest first)) as [Hleaf_in Hleaf].
  destruct (Hdates first (proj1 (Hin first (or_introl eq_refl)))) as (t0 & H0).
  destruct (latestLeaf_latest rest first t0 H0) as (t & Ht & Hle & Hrest).
  { intros n Hn. apply Hdates. apply Hin. now right. }
  destruct (Hpaths leaf Hleaf_in) as (path & Hpath).
  exists leaf, t, path.
  rewrite (selectSession_run session st tree first rest path Htree Hl Hpath).
  eexists. repeat split; try eassumption.
  intros l u Hl_in Hl_leaf Hu.
  assert (Hll : In l (first :: rest)).
  { rewrite <- Hl. apply (leafNodes_childless nodes l Hparents). auto. }
  destruct Hll as [<-|Hll]; [|eauto].
  unfold has_instant in *. rewrite H0 in Hu. inversion Hu; subst. exact Hle.
Qed.

(** C7. For a session without nodes the default-leaf query answers
    [EmptyTree], and selecting the session resolves without an error and
    leaves the view without an active path: the current path is the empty
    sequence and the active node id is null. *)
Theorem selectSession_empty_tree
    (db : Engine.Store) (session : Session.t) (st : ChatState.t)
    (Hempty : Engine.listNodes db (Session.id session) = [])
    (Htree : Api.getSessionTree api (Session.id session) =
             Resolved (TreeResponse.mk (Session.id session)
                         (Engine.listNodes db (Session.id session)))) :
  Engine.defaultLeaf Date_value db (Session.id session)
    = inl Engine.EmptyTree /\
  exists st',
    selectSession Date_value api session st = (st', Resolved tt) /\
    ChatState.currentPath st' = [] /\
    ChatState.activeNodeId st' = None /\
    ChatState.currentSession st' = Some session.
Proof.
  split.
  - unfold Engine.defaultLeaf. now rewrite Hempty.
  - unfold selectSession, bind, await, setCurrentSession.
    rewrite Htree, Hempty. simpl. eexists. repeat split.
Qed.

End ClientFacts.

(** ** The message bubble *)

Lemma array_get_in_range {A} (l : list A) (i : Z) :
  (0 <= i < Z.of_nat (length l))%Z ->
  exists x, array_get l i = Some x /\ nth_error l (Z.to_nat i) = Some x.
Proof.
  intros Hi. unfold array_get.
  destruct (Z.ltb_spec i 0) as [Hneg|_]; [lia|].
  destruct (nth_error l (Z.to_nat i)) as [x|] eqn:Hx; [eauto|].
  apply nth_error_None in Hx. lia.
Qed.

(** C9. For a siblings response whose index is within [0, total) and whose
    total is the length of the siblings array, neither handler reads
    outside the array: the previous handler navigates, to the sibling just
    before, exactly when the index is positive, the next handler, to the
    sibling just after, exactly when the index is below [total - 1], and
    each button is disabled exactly at its boundary, where its handler does
    nothing. *)
Theorem sibling_handlers_stay_in_range (s : SiblingsResponse.t)
    (Hindex : (0 <= SiblingsResponse.current_index s
               < SiblingsResponse.total s)%Z)
    (Htotal : SiblingsResponse.total s =
              Z.of_nat (length (SiblingsResponse.siblings s))) :
  let i := SiblingsResponse.current_index s in
  let prev := MessageBubble.handlePrevSibling (Some s) in
  let next := MessageBubble.handleNextSibling (Some s) in
  prev <> MessageBubble.TypeError /\
  next <> MessageBubble.TypeError /\
  ((0 < i)%Z ->
   exists n, nth_error (SiblingsResponse.siblings s) (Z.to_nat (i - 1))
               = Some n /\
             prev = MessageBubble.Navigate (Node.id n)) /\
  (~ (0 < i)%Z -> prev = MessageBubble.NoOp) /\
  ((i < SiblingsResponse.total s - 1)%Z ->
   exists n, nth_error (SiblingsResponse.siblings s) (Z.to_nat (i + 1))
               = Some n /\
             next = MessageBubble.Navigate (Node.id n)) /\
  (~ (i < SiblingsResponse.total s - 1)%Z -> next = MessageBubble.NoOp) /\
  (MessageBubble.prevDisabled s = true <-> i = 0%Z) /\
  (MessageBubble.nextDisabled s = true <->
   i = (SiblingsResponse.total s - 1)%Z).
Proof.
  cbv zeta. unfold MessageBubble.handlePrevSibling,
    MessageBubble.handleNextSibling, MessageBubble.prevDisabled,
    MessageBubble.nextDisabled.
  set (i := SiblingsResponse.current_index s) in *.
  set (total := SiblingsResponse.total s) in *.
  set (sibs := SiblingsResponse.siblings s) in *.
  assert (Hprev : (0 < i)%Z ->
                  exists n, array_get sibs (i - 1) = Some n /\
                            nth_error sibs (Z.to_nat (i - 1)) = Some n).
  { intros Hpos. apply array_get_in_range. lia. }
  assert (Hnext : (i < total - 1)%Z ->
                  exists n, array_get sibs (i + 1) = Some n /\
                            nth_error sibs (Z.to_nat (i + 1)) = Some n).
  { intros Hlt. apply array_get_in_range. lia. }
  destruct (Z.ltb_spec 0 i) as [Hpos|Hnpos];
    destruct (Z.ltb_spec i (total - 1)) as [Hlt|Hnlt];
    try (destruct (Hprev Hpos) as (np & Hgp & Hnp); rewrite Hgp);
    try (destruct (Hnext Hlt) as (nn & Hgn & Hnn); rewrite Hgn);
    rewrite !Z.eqb_eq;
    repeat split; try discriminate; try lia; eauto; intros; lia.
Qed.

(** ** The tree navigator *)

Section PathFacts.

Import Engine.

Variable st : Store.

Lemma has_id_true node_id n : has_id node_id n = true <-> Node.id n = node_id.
Proof. unfold has_id. apply String.eqb_eq. Qed.

Lemma getNode_some node_id n :
  getNode st node_id = Some n -> In n (nodes st) /\ Node.id n = node_id.
Proof.
  unfold getNode. intros H. apply find_some in H.
  now rewrite has_id_true in H.
Qed.

Lemma getNode_self node_id n :
  getNode st node_id = Some n -> getNode st (Node.id n) = Some n.
Proof.
  intros H. destruct (getNode_some _ _ H) as [_ ->]. exact H.
Qed.

Lemma getNode_present n :
  In n (nodes st) -> exists m, getNode st (Node.id n) = Some m.
Proof.
  intros Hin. unfold getNode.
  destruct (find (has_id (Node.id n)) (nodes st)) as [m|] eqn:Hf; [eauto|].
  pose proof (find_none _ _ Hf n Hin) as Hn.
  unfold has_id in Hn. now rewrite String.eqb_refl in Hn.
Qed.

(** With unique identities a node is what its id resolves to. *)
Lemma unique_ids_inj (l : list Node.t) n m :
  NoDup (map Node.id l) -> In n l -> In m l -> Node.id n = Node.id m -> n = m.
Proof.
  induction l as [|a l IH]; simpl; [tauto|].
  intros Hnd. inversion Hnd as [|? ? Hnotin Hnd']; subst.
  intros [<-|Hn] [<-|Hm] Heq; auto.
  - exfalso. apply Hnotin. rewrite Heq. now apply in_map.
  - exfalso. apply Hnotin. rewrite <- Heq. now apply in_map.
Qed.

Lemma getNode_unique n :
  unique_ids st -> In n (nodes st) -> getNode st (Node.id n) = Some n.
Proof.
  intros Hu Hin. destruct (getNode_present n Hin) as (m & Hm).
  destruct (getNode_some _ _ Hm) as [Hmin Hid].
  now rewrite (unique_ids_inj _ m n Hu Hmin Hin Hid) in Hm.
Qed.

Lemma on_path_false p (l : list Node.t) :
  existsb (has_id p) l = false <-> ~ In p (map Node.id l).
Proof.
  rewrite <- not_true_iff_false, existsb_exists, in_map_iff.
  split; intros H (x & H1 & H2); apply H; exists x.
  - split; [exact H2 | now apply has_id_true].
  - split; [now apply has_id_true | exact H1].
Qed.

(** The walk reports no error but [CorruptTree]. *)
Lemma walk_error fuel : forall cur acc e,
  walk st fuel cur acc = Some (inl e) -> e = CorruptTree.
Proof.
  induction fuel as [|fuel IH]; intros cur acc e; cbn [walk];
    destruct (Node.parent_id cur) as [p|];
    try destruct (existsb (has_id p) (cur :: acc));
    try destruct (getNode st p) as [pn|];
    intros H; try (inversion H; reflexivity).
  now apply (IH pn (cur :: acc)).
Qed.

(** Termination: the nodes on the path have distinct ids of the store, so
    the walk stops before the fuel does. *)
Lemma walk_total fuel : forall cur acc,
  NoDup (map Node.id (cur :: acc)) ->
  incl (map Node.id (cur :: acc)) (map Node.id (nodes st)) ->
  (length (nodes st) < length (cur :: acc) + fuel)%nat ->
  walk st fuel cur acc <> None.
Proof.
  induction fuel as [|fuel IH]; intros cur acc Hnd Hincl Hfuel; cbn [walk];
    destruct (Node.parent_id cur) as [p|]; try discriminate;
    destruct (existsb (has_id p) (cur :: acc)) eqn:Hseen; try discriminate;
    destruct (getNode st p) as [pn|] eqn:Hp; try discriminate;
    apply on_path_false in Hseen;
    destruct (getNode_some _ _ Hp) as [Hpin Hpid];
    assert (Hnd' : NoDup (map Node.id (pn :: cur :: acc)))
      by (simpl; constructor; [now rewrite Hpid | exact Hnd]);
    assert (Hincl' : incl (map Node.id (pn :: cur :: acc))
                       (map Node.id (nodes st)))
      by (intros x [<-|Hx]; [now apply in_map | now apply Hincl]).
  - pose proof (NoDup_incl_length Hnd' Hincl') as Hlen.
    rewrite !length_map in Hlen. simpl in Hlen, Hfuel. lia.
  - apply IH; auto. simpl in *. lia.
Qed.

Lemma linked_snoc l a b :
  linked (l ++ [a]) -> Node.parent_id b = Some (Node.id a) ->
  linked ((l ++ [a]) ++ [b]).
Proof.
  induction l as [|x l IH]; intros Hl Hb.
  - simpl. auto.
  - destruct l as [|y l].
    + simpl in *. tauto.
    + change (linked (x :: (y :: l ++ [a]) ++ [b])).
      change (linked (x :: y :: l ++ [a])) in Hl.
      simpl in Hl. destruct Hl as [Hxy Hl].
      simpl. split; [exact Hxy|]. apply IH; auto.
Qed.

(** A path returned by the walk: a root, then parent and child down to
    [cur], then the part already known. *)
Lemma walk_ok fuel : forall cur acc path,
  walk st fuel cur acc = Some (inr path) ->
  In cur (nodes st) ->
  NoDup (map Node.id (cur :: acc)) ->
  exists above,
    path = above ++ cur :: acc /\
    (exists r, hd_error path = Some r /\ Node.parent_id r = None) /\
    linked (above ++ [cur]) /\
    Forall (fun m => In m (nodes st)) (above ++ [cur]) /\
    NoDup (map Node.id path).
Proof.
  induction fuel as [|fuel IH]; intros cur acc path; cbn [walk];
    destruct (Node.parent_id cur) as [p|] eqn:Hpar;
    try (intros H Hin Hnd; inversion H; subst; exists []; simpl;
         repeat split; eauto; fail);
    destruct (existsb (has_id p) (cur :: acc)) eqn:Hseen; try discriminate;
    destruct (getNode st p) as [pn|] eqn:Hp; try discriminate.
  intros H Hin Hnd.
  apply on_path_false in Hseen.
  destruct (getNode_some _ _ Hp) as [Hpin Hpid].
  destruct (IH pn (cur :: acc) path H Hpin)
    as (above & -> & Hroot & Hl & Hall & Hnd').
  { simpl. constructor; [now rewrite Hpid | exact Hnd]. }
  exists (above ++ [pn]). repeat split; auto.
  - now rewrite <- app_assoc.
  - apply linked_snoc; [exact Hl | now rewrite Hpid].
  - apply Forall_app. split; [exact Hall | now constructor].
Qed.

(** The ancestors of a node whose walk succeeds never repeat. *)
Lemma walk_ok_ancestors fuel : forall cur acc path,
  walk st fuel cur acc = Some (inr path) ->
  getNode st (Node.id cur) = Some cur ->
  (forall k x, ancestor st (S k) (Node.id cur) = Some x ->
               ~ In x (map Node.id (cur :: acc))) /\
  (forall i j x, (i < j)%nat -> ancestor st i (Node.id cur) = Some x ->
                 ancestor st j (Node.id cur) = Some x -> False).
Proof.
  induction fuel as [|fuel IH]; intros cur acc path; cbn [walk];
    destruct (Node.parent_id cur) as [p|] eqn:Hpar.
  2, 4: intros _ Hself; split;
        [ intros k x; simpl; rewrite Hself, Hpar; discriminate
        | intros i [|j] x Hij _; [lia|]; simpl; rewrite Hself, Hpar;
          discriminate ].
  all: destruct (existsb (has_id p) (cur :: acc)) eqn:Hseen; try discriminate;
       destruct (getNode st p) as [pn|] eqn:Hp; try discriminate.
  intros H Hself. apply on_path_false in Hseen.
  destruct (getNode_some _ _ Hp) as [Hpin Hpid].
  destruct (IH pn (cur :: acc) path H) as [IH1 IH2].
  { rewrite Hpid. exact Hp. }
  rewrite Hpid in IH1, IH2.
  assert (Hup : forall k, ancestor st (S k) (Node.id cur) = ancestor st k p).
  { intros k. simpl. now rewrite Hself, Hpar. }
  split.
  - intros [|k] x; rewrite Hup.
    + simpl. intros Hx. inversion Hx; subst. exact Hseen.
    + intros Hx Hin. apply (IH1 k x Hx). now right.
  - intros [|i] [|j] x Hij; try lia.
    + simpl ancestor at 1. intros Hx. inversion Hx; subst x. rewrite Hup.
      destruct j as [|j].
      * simpl. intros Hj. inversion Hj; subst. apply Hseen. now left.
      * intros Hj. apply (IH1 j _ Hj). right. now left.
    + rewrite !Hup. apply IH2. lia.
Qed.

(** Under the invariant the walk meets neither a cycle nor a dangling
    parent. *)
Lemma walk_sound depth fuel : forall cur acc e,
  (forall n p, In n (nodes st) -> Node.parent_id n = Some p ->
               (exists pn, In pn (nodes st) /\ Node.id pn = p) /\
               (depth p < depth (Node.id n))%nat) ->
  In cur (nodes st) ->
  (forall m, In m acc -> (depth (Node.id cur) < depth (Node.id m))%nat) ->
  walk st fuel cur acc <> Some (inl e).
Proof.
  induction fuel as [|fuel IH]; intros cur acc e Hinv Hin Hacc; cbn [walk];
    destruct (Node.parent_id cur) as [p|] eqn:Hpar; try discriminate;
    destruct (Hinv cur p Hin Hpar) as [(pn0 & Hpn0 & Hid0) Hdepth];
    (assert (Hseen : existsb (has_id p) (cur :: acc) = false);
     [ apply on_path_false; intros Hx; apply in_map_iff in Hx;
       destruct Hx as (m & Hm & [<-|Hmacc]);
       [ rewrite Hm in Hdepth; lia
       | specialize (Hacc m Hmacc); rewrite Hm in Hacc; lia ]
     | rewrite Hseen ]);
    (destruct (getNode st p) as [pn|] eqn:Hp;
     [ | subst p; destruct (getNode_present pn0 Hpn0) as (m & Hm);
         congruence ]);
    try discriminate.
  destruct (getNode_some _ _ Hp) as [Hpin Hpid].
  apply IH; auto.
  intros m [<-|Hm]; rewrite Hpid; [exact Hdepth|].
  specialize (Hacc m Hm). lia.
Qed.

End PathFacts.

Lemma pathTo_total st node_id : Engine.pathTo st node_id <> None.
Proof.
  unfold Engine.pathTo.
  destruct (Engine.getNode st node_id) as [n|] eqn:Hn; [|discriminate].
  destruct (getNode_some st _ _ Hn) as [Hin _].
  apply walk_total.
  - simpl. constructor; [intros [] | constructor].
  - intros x [<-|[]]. now apply in_map.
  - simpl. lia.
Qed.

Lemma pathTo_ok st n path :
  Engine.unique_ids st -> In n (Engine.nodes st) ->
  Engine.pathTo st (Node.id n) = Some (inr path) ->
  Engine.root_path st path n.
Proof.
  intros Hu Hin. unfold Engine.pathTo.
  rewrite (getNode_unique st n Hu Hin). intros Hwalk.
  destruct (walk_ok st _ _ _ _ Hwalk Hin)
    as (above & -> & Hroot & Hl & Hall & Hnd).
  { simpl. constructor; [intros [] | constructor]. }
  unfold Engine.root_path. eauto 10.
Qed.

Lemma pathTo_verdict st n :
  In n (Engine.nodes st) ->
  (exists path, Engine.pathTo st (Node.id n) = Some (inr path)) \/
  Engine.pathTo st (Node.id n) = Some (inl Engine.CorruptTree).
Proof.
  intros Hin. pose proof (pathTo_total st (Node.id n)) as Htot.
  destruct (Engine.pathTo st (Node.id n)) as [[e|path]|] eqn:Hp;
    [right | left; eauto | congruence].
  unfold Engine.pathTo in Hp.
  destruct (getNode_present st n Hin) as (m & Hm). rewrite Hm in Hp.
  now rewrite (walk_error st _ _ _ _ Hp).
Qed.

(** C2. For every node [n] of the store, [pathTo(n)] ends with a verdict:
    either a path or [CorruptTree]. A path it returns runs from a root (a
    node with a null parent) first to [n] last, each node the parent of the
    next, with no node id repeated. Under the invariants of the tree it
    does return a path, and when the way up from [n] runs into a cycle it
    reports [CorruptTree]. *)
Theorem pathTo_root_first_or_CorruptTree (st : Engine.Store) (n : Node.t)
    (Hunique : Engine.unique_ids st) (Hin : In n (Engine.nodes st)) :
  ((exists path, Engine.pathTo st (Node.id n) = Some (inr path) /\
                 Engine.root_path st path n) \/
   Engine.pathTo st (Node.id n) = Some (inl Engine.CorruptTree)) /\
  (Engine.tree_invariant st ->
   exists path, Engine.pathTo st (Node.id n) = Some (inr path) /\
                Engine.root_path st path n) /\
  (Engine.on_cycle st (Node.id n) ->
   Engine.pathTo st (Node.id n) = Some (inl Engine.CorruptTree)).
Proof.
  pose proof (pathTo_verdict st n Hin) as Hverdict.
  pose proof (getNode_unique st n Hunique Hin) as Hself.
  repeat split.
  - destruct Hverdict as [(path & Hp)|He]; [left | now right].
    exists path. split; [exact Hp | now apply pathTo_ok].
  - intros (depth & Hinv).
    destruct Hverdict as [(path & Hp)|He].
    + exists path. split; [exact Hp | now apply pathTo_ok].
    + exfalso. unfold Engine.pathTo in He. rewrite Hself in He.
      revert He. apply (walk_sound st depth); auto. intros m [].
  - intros (i & j & x & Hij & Hi & Hj).
    destruct Hverdict as [(path & Hp)|He]; [exfalso | exact He].
    unfold Engine.pathTo in Hp. rewrite Hself in Hp.
    destruct (walk_ok_ancestors st _ _ _ _ Hp Hself) as [_ Hdistinct].
    exact (Hdistinct i j x Hij Hi Hj).
Qed.

(** ** The branch writer keeps the tree a tree *)

Lemma createNode_failure st new_id now sid parent role content model st' e :
  Engine.createNode st new_id now sid parent role content model
    = (st', inl e) ->
  st' = st.
Proof.
  unfold Engine.createNode.
  destruct (negb (Engine.sessionExists st sid)); [congruence|].
  destruct (negb _); congruence.
Qed.

(** Acyclic by construction: a node created with a fresh identity under a
    parent that resolves keeps the identities unique and the depth
    growing from parent to child. *)
Lemma createNode_keeps_invariant
    st new_id now sid parent role content model st' n :
  ~ In new_id (map Node.id (Engine.nodes st)) ->
  Engine.unique_ids st -> Engine.tree_invariant st ->
  Engine.createNode st new_id now sid parent role content model
    = (st', inr n) ->
  Engine.nodes st' = Engine.nodes st ++ [n] /\
  Engine.unique_ids st' /\ Engine.tree_invariant st'.
Proof.
  intros Hfresh Hu (depth & Hinv). unfold Engine.createNode.
  destruct (negb (Engine.sessionExists st sid)); [discriminate|].
  destruct (negb _) eqn:Hres; [discriminate|].
  intros H. inversion H; subst; clear H. simpl.
  apply negb_false_iff in Hres.
  split; [reflexivity|]. split.
  - unfold Engine.unique_ids in *. simpl. rewrite map_app. simpl.
    apply NoDup_app; [exact Hu | repeat constructor; intros [] |].
    intros x Hx [<-|[]]. exact (Hfresh Hx).
  - set (up := match parent with Some p => S (depth p) | None => O end).
    exists (fun x => if String.eqb x new_id then up else depth x).
    simpl. intros m p Hm Hp. apply in_app_or in Hm.
    assert (Hold : forall q, In q (map Node.id (Engine.nodes st)) ->
                             String.eqb q new_id = false).
    { intros q Hq. apply String.eqb_neq. intros ->. exact (Hfresh Hq). }
    destruct Hm as [Hm|[<-|[]]].
    + destruct (Hinv m p Hm Hp) as [(pn & Hpn & Hid) Hlt].
      rewrite (Hold p) by (rewrite <- Hid; now apply in_map).
      rewrite (Hold (Node.id m)) by now apply in_map.
      split; [|exact Hlt]. exists pn. split; [|exact Hid].
      apply in_or_app. now left.
    + simpl in Hp. subst parent. rewrite String.eqb_refl.
      destruct (Engine.getNode st p) as [pn|] eqn:Hg; [|discriminate].
      destruct (getNode_some st _ _ Hg) as [Hpn Hid].
      rewrite (Hold p) by (rewrite <- Hid; now apply in_map).
      split; [|unfold up; lia]. exists pn. split; [|exact Hid].
      apply in_or_app. now left.
Qed.

(** ** The siblings of a node *)

Section SiblingFacts.

Import Engine.

Variable Date_value : string -> option Z.

Lemma created_le_total a b :
  created_le Date_value a b = true \/ created_le Date_value b a = true.
Proof.
  unfold created_le.
  destruct (Date_value (Node.created_at a)) as [x|],
           (Date_value (Node.created_at b)) as [y|]; auto.
  rewrite !Z.leb_le. lia.
Qed.

Lemma created_le_trans a b c :
  created_le Date_value a b = true -> created_le Date_value b c = true ->
  created_le Date_value a c = true.
Proof.
  unfold created_le.
  destruct (Date_value (Node.created_at a)) as [x|],
           (Date_value (Node.created_at b)) as [y|],
           (Date_value (Node.created_at c)) as [z|]; auto; try discriminate.
  rewrite !Z.leb_le. lia.
Qed.

Lemma insert_by_created_perm x l :
  Permutation (insert_by_created Date_value x l) (x :: l).
Proof.
  induction l as [|y l IH]; simpl; [reflexivity|].
  destruct (created_le Date_value x y); [reflexivity|].
  rewrite IH. apply perm_swap.
Qed.

Lemma sort_by_created_perm l : Permutation (sort_by_created Date_value l) l.
Proof.
  induction l as [|x l IH]; simpl; [reflexivity|].
  rewrite insert_by_created_perm. now constructor.
Qed.

Lemma insert_by_created_sorted x l :
  Sorted (by_created Date_value) l ->
  Sorted (by_created Date_value) (insert_by_created Date_value x l).
Proof.
  induction l as [|y l IH]; intros Hs; simpl.
  - repeat constructor.
  - destruct (created_le Date_value x y) eqn:Hxy.
    + constructor; [exact Hs | now constructor].
    + inversion Hs as [|? ? Hs' Hhd]; subst.
      constructor; [now apply IH|].
      assert (Hyx : by_created Date_value y x).
      { destruct (created_le_total x y) as [H|H]; [congruence | exact H]. }
      destruct l as [|z l]; simpl.
      * now constructor.
      * destruct (created_le Date_value x z); constructor; auto.
        now inversion Hhd.
Qed.

Lemma sort_by_created_sorted l :
  StronglySorted (by_created Date_value) (sort_by_created Date_value l).
Proof.
  apply Sorted_StronglySorted.
  - intros a b c. apply created_le_trans.
  - induction l as [|x l IH]; simpl; [constructor|].
    now apply insert_by_created_sorted.
Qed.

Lemma index_of_found (l : list Node.t) n :
  NoDup (map Node.id l) -> In n l ->
  nth_error l (index_of (Node.id n) l) = Some n /\
  (index_of (Node.id n) l < length l)%nat.
Proof.
  induction l as [|a l IH]; simpl; [tauto|].
  intros Hnd Hin. inversion Hnd as [|? ? Hnotin Hnd']; subst.
  destruct (has_id (Node.id n) a) eqn:Ha.
  - apply has_id_true in Ha. split; [|lia]. simpl. f_equal.
    apply (unique_ids_inj (a :: l) a n Hnd); simpl; auto.
  - destruct Hin as [->|Hin].
    + unfold has_id in Ha. now rewrite String.eqb_refl in Ha.
    + destruct (IH Hnd' Hin) as [Hnth Hlt]. simpl. split; [exact Hnth | lia].
Qed.

Lemma same_parent_refl n : same_parent n n = true.
Proof.
  unfold same_parent. rewrite String.eqb_refl. simpl.
  destruct (Node.parent_id n); [apply String.eqb_refl | reflexivity].
Qed.

Lemma NoDup_map_filter (f : Node.t -> bool) (l : list Node.t) :
  NoDup (map Node.id l) -> NoDup (map Node.id (filter f l)).
Proof.
  induction l as [|a l IH]; simpl; [auto|].
  intros Hnd. inversion Hnd as [|? ? Hnotin Hnd']; subst.
  destruct (f a); simpl; [|auto].
  constructor; [|auto]. intros Hin. apply Hnotin.
  apply in_map_iff in Hin. destruct Hin as (m & Hm & Hmin).
  apply filter_In in Hmin. rewrite <- Hm. apply in_map. tauto.
Qed.

(** A list of distinct nodes that are all [n] and hold [n] is [[n]]. *)
Lemma only_child (l : list Node.t) n :
  NoDup (map Node.id l) -> In n l -> (forall m, In m l -> m = n) -> l = [n].
Proof.
  intros Hnd Hin Hall. destruct l as [|a l]; [destruct Hin|].
  rewrite (Hall a (or_introl eq_refl)) in *.
  destruct l as [|b l]; [reflexivity|].
  rewrite (Hall b (or_intror (or_introl eq_refl))) in Hnd.
  simpl in Hnd. inversion Hnd as [|? ? Hnotin _]. exfalso. apply Hnotin.
  now left.
Qed.

Lemma same_parent_fields n m :
  same_parent n m = true <->
  Node.session_id m = Node.session_id n /\
  Node.parent_id m = Node.parent_id n.
Proof.
  unfold same_parent. rewrite andb_true_iff, String.eqb_eq.
  destruct (Node.parent_id n) as [p|], (Node.parent_id m) as [q|];
    rewrite ?String.eqb_eq; split; intros [H1 H2]; split;
    congruence.
Qed.

Lemma StronglySorted_nth {A} (R : A -> A -> Prop) (l : list A) :
  StronglySorted R l ->
  forall i j a b, (i < j)%nat -> nth_error l i = Some a ->
                  nth_error l j = Some b -> R a b.
Proof.
  induction 1 as [|x l Hs IH Hall]; intros i j a b Hij Ha Hb.
  - destruct i; discriminate.
  - destruct j as [|j]; [lia|]. simpl in Hb.
    destruct i as [|i]; simpl in Ha.
    + inversion Ha; subst. rewrite Forall_forall in Hall.
      apply Hall. eapply nth_error_In. exact Hb.
    + apply (IH i j); auto. lia.
Qed.

(** C5, as the code has it. For every node of the store, [siblingsOf]
    returns the nodes of its session that share its parent, earlier
    [created_at] first, together with the zero-based index at which the
    node stands among them and their count; a node without siblings gets
    the one-element list, index 0 and total 1. The bubble takes a node to
    have siblings exactly when the total is above 1, and shows the branch
    navigation exactly when, besides, the message is not a user
    message. *)
Theorem siblingsOf_ordered_index_total (st : Store) (n : Node.t)
    (Hunique : unique_ids st) (Hin : In n (nodes st)) :
  exists r,
    siblingsOf Date_value st (Node.id n) = inr r /\
    StronglySorted (by_created Date_value) (SiblingsResponse.siblings r) /\
    Permutation (SiblingsResponse.siblings r)
      (filter (same_parent n) (nodes st)) /\
    SiblingsResponse.total r =
      Z.of_nat (length (SiblingsResponse.siblings r)) /\
    (0 <= SiblingsResponse.current_index r < SiblingsResponse.total r)%Z /\
    array_get (SiblingsResponse.siblings r) (SiblingsResponse.current_index r)
      = Some n /\
    ((forall m, In m (nodes st) -> same_parent n m = true -> m = n) ->
     SiblingsResponse.siblings r = [n] /\
     SiblingsResponse.current_index r = 0%Z /\
     SiblingsResponse.total r = 1%Z) /\
    (MessageBubble.hasSiblings (Some r) = true <->
     (1 < SiblingsResponse.total r)%Z) /\
    (forall m, In m (SiblingsResponse.siblings r) <->
               In m (nodes st) /\
               Node.session_id m = Node.session_id n /\
               Node.parent_id m = Node.parent_id n) /\
    NoDup (SiblingsResponse.siblings r) /\
    (forall i j a b ta tb,
       (i < j)%nat ->
       nth_error (SiblingsResponse.siblings r) i = Some a ->
       nth_error (SiblingsResponse.siblings r) j = Some b ->
       Date_value (Node.created_at a) = Some ta ->
       Date_value (Node.created_at b) = Some tb ->
       (ta <= tb)%Z) /\
    (forall node,
       MessageBubble.showsSiblingNav node (Some r) = true <->
       Node.role node <> user /\ (1 < SiblingsResponse.total r)%Z).
Proof.
  unfold siblingsOf. rewrite (getNode_unique st n Hunique Hin).
  set (family := filter (same_parent n) (nodes st)).
  set (sibs := sort_by_created Date_value family).
  pose proof (sort_by_created_perm family) as Hperm. fold sibs in Hperm.
  pose proof (sort_by_created_sorted family) as Hsorted. fold sibs in Hsorted.
  assert (Hfam : In n family).
  { apply filter_In. split; [exact Hin | apply same_parent_refl]. }
  assert (Hnd_fam : NoDup (map Node.id family))
    by now apply NoDup_map_filter.
  assert (Hnd : NoDup (map Node.id sibs)).
  { eapply Permutation_NoDup; [|exact Hnd_fam].
    apply Permutation_map. now symmetry. }
  assert (Hsib : In n sibs).
  { eapply Permutation_in; [symmetry; exact Hperm | exact Hfam]. }
  destruct (index_of_found sibs n Hnd Hsib) as [Hnth Hlt].
  assert (Hone : (forall m, In m (nodes st) -> same_parent n m = true ->
                            m = n) -> sibs = [n]).
  { intros Honly. apply Permutation_length_1_inv.
    rewrite <- (only_child family n Hnd_fam Hfam); [now symmetry|].
    intros m Hm. apply filter_In in Hm. now apply Honly. }
  eexists. split; [reflexivity|].
  cbn [SiblingsResponse.siblings SiblingsResponse.current_index
       SiblingsResponse.total].
  split; [exact Hsorted|]. split; [exact Hperm|]. split; [reflexivity|].
  split; [lia|].
  split.
  { unfold array_get.
    destruct (Z.ltb_spec (Z.of_nat (index_of (Node.id n) sibs)) 0); [lia|].
    now rewrite Nat2Z.id. }
  split.
  { intros Honly. rewrite (Hone Honly). simpl. unfold has_id.
    now rewrite String.eqb_refl. }
  split; [apply Z.ltb_lt|].
  split.
  { intros m. split.
    - intros Hm. apply (Permutation_in _ Hperm) in Hm.
      apply filter_In in Hm. now rewrite same_parent_fields in Hm.
    - intros (Hm & Hs & Hp). apply (Permutation_in _ (Permutation_sym Hperm)).
      apply filter_In. split; [exact Hm|]. now apply same_parent_fields. }
  split; [exact (NoDup_map_inv _ _ Hnd)|].
  split.
  { intros i j a b ta tb Hij Ha Hb Hta Htb.
    pose proof (StronglySorted_nth _ _ Hsorted i j a b Hij Ha Hb) as Hab.
    unfold by_created, created_le in Hab. rewrite Hta, Htb in Hab.
    now apply Z.leb_le. }
  intros node. unfold MessageBubble.showsSiblingNav, MessageBubble.isUser,
    MessageBubble.hasSiblings.
  cbn [SiblingsResponse.total].
  rewrite andb_true_iff, negb_true_iff, Z.ltb_lt.
  destruct (Node.role node); simpl; split; intros [H1 H2]; split;
    congruence.
Qed.

End SiblingFacts.

(** ** Regeneration *)

(** C6, as the code has it. [branch] invoked on a user node fails with
    [InvalidRole] and leaves the store as it was; the bubble offers the
    regenerate action exactly on the messages that are not user messages
    (assistant and system ones alike) and are not streaming. *)
Theorem regenerate_rejects_user_turns
    (st : Engine.Store) (new_id now node_id model : string) (n : Node.t)
    (node : Node.t) (isStreaming : option bool)
    (Hnode : Engine.getNode st node_id = Some n)
    (Huser : Node.role n = user) :
  Engine.branch st new_id now node_id model = (st, inl Engine.InvalidRole) /\
  (MessageBubble.showsRegenerate node isStreaming = true <->
   Node.role node <> user /\ isStreaming <> Some true).
Proof.
  split.
  - unfold Engine.branch. now rewrite Hnode, Huser.
  - unfold MessageBubble.showsRegenerate, MessageBubble.isUser.
    rewrite andb_true_iff, !negb_true_iff.
    destruct (Node.role node), isStreaming as [[|]|]; simpl;
      split; intros [H1 H2]; split; congruence.
Qed.

(** ** Diverge Mode *)

Section DivergeFacts.

Import SplitView.

Lemma run_task_cons tk t e events :
  run_task tk t (e :: events) =
  run_task (fst (fst (task_step e tk t))) (snd (fst (task_step e tk t))) events.
Proof.
  unfold run_task. simpl. destruct (task_step e tk t) as [[tk' t'] r].
  reflexivity.
Qed.

Lemma run_task_stopped tk t events :
  phase tk <> Running -> run_task tk t events = (tk, t).
Proof.
  intros Hphase. induction events as [|e events IH]; [reflexivity|].
  rewrite run_task_cons. unfold task_step.
  destruct (phase tk); [congruence | exact IH | exact IH].
Qed.

(** The local [fullContent] of a running stream grows by what the stream
    delivers before it ends. *)
Lemma run_task_delivered events : forall c t,
  fullContent (fst (run_task (mkTask c Running) t events)) =
  (c ++ delivered events)%string.
Proof.
  induction events as [|e events IH]; intros c t.
  - simpl. now rewrite append_empty_r.
  - rewrite run_task_cons. unfold task_step. cbn [phase fullContent].
    destruct e as [chunk| |].
    + cbn [delivered].
      destruct (ChatStreamChunk.done chunk); cbn [negb fst snd]; rewrite IH.
      * reflexivity.
      * apply append_assoc.
    + cbn [fst snd]. rewrite run_task_stopped by (simpl; discriminate).
      simpl. now rewrite append_empty_r.
    + cbn [fst snd]. rewrite run_task_stopped by (simpl; discriminate).
      simpl. now rewrite append_empty_r.
Qed.

(** Whatever the interleaving, each side sees its own events only. *)
Lemma run_projection schedule : forall v,
  (leftTask (run v schedule), leftThread (run v schedule)) =
    run_task (leftTask v) (leftThread v) (events_of Left schedule) /\
  (rightTask (run v schedule), rightThread (run v schedule)) =
    run_task (rightTask v) (rightThread v) (events_of Right schedule).
Proof.
  induction schedule as [|[side e] schedule IH]; intros v.
  - split; reflexivity.
  - change (run v ((side, e) :: schedule))
      with (run (step v (side, e)) schedule).
    destruct (IH (step v (side, e))) as [IHl IHr].
    rewrite IHl, IHr. unfold events_of.
    destruct side; cbn [filter is_left is_right fst negb map snd step];
      rewrite run_task_cons.
    + destruct (task_step e (leftTask v) (leftThread v)) as [[tk t] r].
      split; reflexivity.
    + destruct (task_step e (rightTask v) (rightThread v)) as [[tk t] r].
      split; reflexivity.
Qed.

Lemma events_of_skip side other e before after :
  side <> other ->
  events_of side (before ++ (other, e) :: after) =
  events_of side (before ++ after).
Proof.
  intros Hne. unfold events_of. rewrite !filter_app. simpl.
  destruct side, other; simpl; congruence.
Qed.

(** A stream run alone from the start: its task holds the tokens delivered
    and the way the stream ended, its thread what [thread_after] says. *)
Lemma run_task_thread events : forall c i m,
  run_task (mkTask c Running) (mkThread i m true c) events =
  (mkTask (c ++ delivered events) (outcome events),
   match outcome events with
   | Running => mkThread i m true (c ++ delivered events)
   | _ => mkThread "" m false ""
   end).
Proof.
  induction events as [|e events IH]; intros c i m.
  - simpl. now rewrite append_empty_r.
  - rewrite run_task_cons. unfold task_step. cbn [phase fullContent].
    destruct e as [chunk| |]; cbn [outcome delivered].
    + destruct (ChatStreamChunk.done chunk); cbn [negb fst snd].
      * apply IH.
      * unfold withContent. cbn [input messages isStreaming].
        rewrite IH, append_assoc. reflexivity.
    + cbn [fst snd]. rewrite run_task_stopped by (simpl; discriminate).
      unfold finished. cbn [messages]. now rewrite append_empty_r.
    + cbn [fst snd]. rewrite run_task_stopped by (simpl; discriminate).
      unfold finished. cbn [messages]. now rewrite append_empty_r.
Qed.

(** C1. In Diverge Mode the parent id is read once, before either stream
    starts, and both requests carry it. Whatever the interleaving of the
    events of the two streams, each thread and each local [fullContent]
    is what its own stream alone would have made it: while a stream runs,
    the streaming content of its thread is the concatenation of the tokens
    that stream delivered, and of no other; once it has ended the thread
    is cleared; and a failure of one stream, at any point, leaves the task
    and the thread of the other as they would have been without it. *)
Theorem diverge_streams_are_independent
    (sessionId model : string) (parentNode : option Node.t)
    (left right : ThreadState) (v0 : View) (reqL reqR : Request)
    (schedule : list (Side * Event))
    (Hstart : handleSendBoth sessionId parentNode model left right
              = Some (v0, reqL, reqR)) :
  let v := run v0 schedule in
  (req_parentId reqL = or_null (option_map Node.id parentNode) /\
   req_parentId reqR = req_parentId reqL) /\
  (leftThread v0 = started left /\ rightThread v0 = started right) /\
  (leftTask v, leftThread v) =
    run_task (mkTask "" Running) (started left) (events_of Left schedule) /\
  (rightTask v, rightThread v) =
    run_task (mkTask "" Running) (started right) (events_of Right schedule) /\
  fullContent (leftTask v) = delivered (events_of Left schedule) /\
  fullContent (rightTask v) = delivered (events_of Right schedule) /\
  (forall before after, schedule = before ++ after ->
     let v' := run v0 (before ++ (Right, Throw) :: after) in
     leftTask v' = leftTask v /\ leftThread v' = leftThread v) /\
  (forall before after, schedule = before ++ after ->
     let v' := run v0 (before ++ (Left, Throw) :: after) in
     rightTask v' = rightTask v /\ rightThread v' = rightThread v) /\
  leftThread v = thread_after left (events_of Left schedule) /\
  rightThread v = thread_after right (events_of Right schedule) /\
  phase (leftTask v) = outcome (events_of Left schedule) /\
  phase (rightTask v) = outcome (events_of Right schedule).
Proof.
  unfold handleSendBoth in Hstart.
  destruct (negb (trim_truthy (input left)) || negb (trim_truthy (input right)));
    [discriminate|].
  destruct (isStreaming left || isStreaming right); [discriminate|].
  inversion Hstart; subst; clear Hstart. cbv zeta.
  match goal with |- context [run ?w schedule] => set (v0 := w) end.
  destruct (run_projection schedule v0) as [Hl Hr].
  assert (Hskip_r : forall before after, schedule = before ++ after ->
            leftTask (run v0 (before ++ (Right, Throw) :: after))
              = leftTask (run v0 schedule) /\
            leftThread (run v0 (before ++ (Right, Throw) :: after))
              = leftThread (run v0 schedule)).
  { intros before after Hs.
    destruct (run_projection (before ++ (Right, Throw) :: after) v0)
      as [Hl' _].
    rewrite events_of_skip in Hl' by discriminate. rewrite <- Hs in Hl'.
    rewrite <- Hl in Hl'. now inversion Hl'. }
  assert (Hskip_l : forall before after, schedule = before ++ after ->
            rightTask (run v0 (before ++ (Left, Throw) :: after))
              = rightTask (run v0 schedule) /\
            rightThread (run v0 (before ++ (Left, Throw) :: after))
              = rightThread (run v0 schedule)).
  { intros before after Hs.
    destruct (run_projection (before ++ (Left, Throw) :: after) v0)
      as [_ Hr'].
    rewrite events_of_skip in Hr' by discriminate. rewrite <- Hs in Hr'.
    rewrite <- Hr in Hr'. now inversion Hr'. }
  pose proof Hl as Hl2. pose proof Hr as Hr2.
  cbn [leftTask leftThread rightTask rightThread v0] in Hl2, Hr2.
  unfold started in Hl2, Hr2.
  rewrite run_task_thread in Hl2, Hr2.
  inversion Hl2 as [[HlT Hlt]]. inversion Hr2 as [[HrT Hrt]].
  split; [split; reflexivity|].
  split; [split; reflexivity|].
  split; [exact Hl|]. split; [exact Hr|].
  split; [now rewrite HlT|]. split; [now rewrite HrT|].
  split; [exact Hskip_r|]. split; [exact Hskip_l|].
  unfold thread_after.
  split; [exact Hlt|]. split; [exact Hrt|].
  split; [now rewrite HlT | now rewrite HrT].
Qed.

End DivergeFacts.

(* ===================================================================== *)
(** * Concrete runs *)
(* ===================================================================== *)

Lemma parse_bool_blank line :
  trim_truthy line = false -> parse_bool line = None.
Proof.
  intros Hblank. unfold parse_bool.
  destruct (String.eqb_spec line "true") as [->|_]; [discriminate|].
  destruct (String.eqb_spec line "false") as [->|_]; [discriminate|].
  reflexivity.
Qed.

(** The sample body: the cut line is put together, the line that is not
    JSON is skipped, the last piece is not yielded. *)
Example sample_reads_yield :
  stream_loop bool parse_bool "" sample_reads = [true; false; true].
Proof. reflexivity. Qed.

Lemma stream_parsers_yield_complete_lines_witness :
  let expected := Yields [true; false; true] in
  streamChat bool parse_bool "S" "Hello" None "m" (Some sample_reads)
    = expected /\
  streamBranch bool parse_bool "a1" "m" (Some sample_reads) = expected /\
  streamContinue bool parse_bool "a1" "Hello" "S" "m" (Some sample_reads)
    = expected.
Proof.
  apply (proj2 (stream_parsers_yield_complete_lines bool parse_bool
                  parse_bool_blank sample_reads "S" "Hello" "m" "a1" None)
           ["true"; "false"; "oops"; "true"] "false").
  - repeat constructor.
  - reflexivity.
  - reflexivity.
Defined.

Lemma sample_store_unique : Engine.unique_ids sample_store.
Proof.
  unfold Engine.unique_ids. simpl.
  repeat constructor; simpl; intuition discriminate.
Qed.

Lemma sample_store_invariant : Engine.tree_invariant sample_store.
Proof.
  exists (fun node_id => if String.eqb node_id "u1" then 0 else 1)%nat.
  intros n p [<-|[<-|[<-|[]]]]; simpl; intros Hp; inversion Hp; subst;
    (split; [exists U1; simpl; auto | simpl; lia]).
Qed.

(** The scenario of the specification: the path of [A2] is [U1; A2]. *)
Example pathTo_A2 : Engine.pathTo sample_store "a2" = Some (inr [U1; A2]).
Proof. reflexivity. Qed.

Example pathTo_cycle :
  Engine.pathTo corrupt_store "x" = Some (inl Engine.CorruptTree).
Proof. reflexivity. Qed.

Example pathTo_unknown :
  Engine.pathTo sample_store "zz" = Some (inl Engine.NotFound).
Proof. reflexivity. Qed.

Lemma pathTo_root_first_or_CorruptTree_witness :
  ((exists path, Engine.pathTo sample_store (Node.id A2) = Some (inr path) /\
                 Engine.root_path sample_store path A2) \/
   Engine.pathTo sample_store (Node.id A2) = Some (inl Engine.CorruptTree)) /\
  (Engine.tree_invariant sample_store ->
   exists path, Engine.pathTo sample_store (Node.id A2) = Some (inr path) /\
                Engine.root_path sample_store path A2) /\
  (Engine.on_cycle sample_store (Node.id A2) ->
   Engine.pathTo sample_store (Node.id A2) = Some (inl Engine.CorruptTree)).
Proof.
  apply (pathTo_root_first_or_CorruptTree sample_store A2).
  - unfold Engine.unique_ids. simpl.
    repeat constructor; simpl; intuition discriminate.
  - simpl. auto.
Defined.

Lemma selectSession_restores_latest_leaf_witness :
  let nodes := [U1; A1; A2] in
  exists leaf t path st',
    In leaf nodes /\
    childless nodes leaf /\
    has_instant epoch_ms leaf t /\
    (forall l u, In l nodes -> childless nodes l ->
                 has_instant epoch_ms l u -> (u <= t)%Z) /\
    Api.getNodePath sample_api (Node.id leaf) = Resolved path /\
    selectSession epoch_ms sample_api session_S ChatState.initial
      = (st', Resolved tt) /\
    ChatState.activeNodeId st' = Some (Node.id leaf) /\
    ChatState.currentPath st' = path /\
    ChatState.nodes st' = nodes /\
    ChatState.currentSession st' = Some session_S.
Proof.
  apply (selectSession_restores_latest_leaf epoch_ms sample_api session_S
           ChatState.initial (TreeResponse.mk "S" [U1; A1; A2])).
  - reflexivity.
  - discriminate.
  - exists (fun n => match Node.parent_id n with
                     | Some _ => 1 | None => 0 end)%nat.
    simpl. intros c p [<-|[<-|[<-|[]]]] [<-|[<-|[<-|[]]]]; simpl;
      intros Hp; try discriminate; lia.
  - simpl. intros m p [<-|[<-|[<-|[]]]]; simpl; intros Hp; inversion Hp;
      discriminate.
  - simpl. intros n [<-|[<-|[<-|[]]]]; eexists; reflexivity.
  - simpl. intros n [<-|[<-|[<-|[]]]]; eexists; reflexivity.
Defined.

(** The view restored for the sample session: the latest reply. *)
Example selectSession_sample :
  let st' := fst (selectSession epoch_ms sample_api session_S
                    ChatState.initial) in
  ChatState.activeNodeId st' = Some "a2" /\
  ChatState.currentPath st' = [U1; A2].
Proof. split; reflexivity. Qed.

Lemma selectSession_empty_tree_witness :
  Engine.defaultLeaf epoch_ms sample_store (Session.id session_E)
    = inl Engine.EmptyTree /\
  exists st',
    selectSession epoch_ms sample_api session_E ChatState.initial
      = (st', Resolved tt) /\
    ChatState.currentPath st' = [] /\
    ChatState.activeNodeId st' = None /\
    ChatState.currentSession st' = Some session_E.
Proof.
  apply (selectSession_empty_tree epoch_ms sample_api sample_store session_E
           ChatState.initial); reflexivity.
Defined.

Lemma deleteSession_clears_only_current_witness :
  let st := fst (selectSession epoch_ms sample_api session_S
                   ChatState.initial) in
  let st' := fst (deleteSession sample_api "S" st) in
  ((exists cs, ChatState.currentSession st = Some cs /\
               Session.id cs = "S") ->
   session_view st' = (None, [], [], None)) /\
  ((forall cs, ChatState.currentSession st = Some cs ->
               Session.id cs <> "S") ->
   session_view st' = session_view st) /\
  (forall data, Api.getSessions sample_api = Resolved data ->
                ChatState.sessions st' = data).
Proof.
  exact (deleteSession_clears_only_current sample_api "S"
           (fst (selectSession epoch_ms sample_api session_S
                   ChatState.initial))
           eq_refl).
Defined.

Example deleteSession_other_session :
  let st := fst (selectSession epoch_ms sample_api session_S
                   ChatState.initial) in
  session_view (fst (deleteSession sample_api "E" st)) = session_view st /\
  session_view (fst (deleteSession sample_api "S" st)) = (None, [], [], None).
Proof. split; reflexivity. Qed.

Lemma sibling_handlers_stay_in_range_witness :
  let s := sample_siblings in
  let i := SiblingsResponse.current_index s in
  let prev := MessageBubble.handlePrevSibling (Some s) in
  let next := MessageBubble.handleNextSibling (Some s) in
  prev <> MessageBubble.TypeError /\
  next <> MessageBubble.TypeError /\
  ((0 < i)%Z ->
   exists n, nth_error (SiblingsResponse.siblings s) (Z.to_nat (i - 1))
               = Some n /\
             prev = MessageBubble.Navigate (Node.id n)) /\
  (~ (0 < i)%Z -> prev = MessageBubble.NoOp) /\
  ((i < SiblingsResponse.total s - 1)%Z ->
   exists n, nth_error (SiblingsResponse.siblings s) (Z.to_nat (i + 1))
               = Some n /\
             next = MessageBubble.Navigate (Node.id n)) /\
  (~ (i < SiblingsResponse.total s - 1)%Z -> next = MessageBubble.NoOp) /\
  (MessageBubble.prevDisabled s = true <-> i = 0%Z) /\
  (MessageBubble.nextDisabled s = true <->
   i = (SiblingsResponse.total s - 1)%Z).
Proof.
  apply (sibling_handlers_stay_in_range sample_siblings).
  - simpl. lia.
  - reflexivity.
Defined.

(** A response that breaks the premise: the total overstates the array,
    and the next handler reads past its end. *)
Example next_handler_needs_accurate_total :
  MessageBubble.handleNextSibling (Some (SiblingsResponse.mk [A1] 0 2))
    = MessageBubble.TypeError.
Proof. reflexivity. Qed.

(** The scenario of the specification: after the regeneration the
    siblings of [A1] are two. *)
Example siblingsOf_A1 :
  Engine.siblingsOf epoch_ms sample_store "a1"
    = inr (SiblingsResponse.mk [A1; A2] 0 2) /\
  Engine.siblingsOf epoch_ms sample_store "u1"
    = inr (SiblingsResponse.mk [U1] 0 1).
Proof. split; reflexivity. Qed.

Lemma siblingsOf_ordered_index_total_witness :
  exists r,
    Engine.siblingsOf epoch_ms sample_store (Node.id A2) = inr r /\
    StronglySorted (Engine.by_created epoch_ms)
      (SiblingsResponse.siblings r) /\
    Permutation (SiblingsResponse.siblings r)
      (filter (Engine.same_parent A2) (Engine.nodes sample_store)) /\
    SiblingsResponse.total r =
      Z.of_nat (length (SiblingsResponse.siblings r)) /\
    (0 <= SiblingsResponse.current_index r < SiblingsResponse.total r)%Z /\
    array_get (SiblingsResponse.siblings r) (SiblingsResponse.current_index r)
      = Some A2 /\
    ((forall m, In m (Engine.nodes sample_store) ->
                Engine.same_parent A2 m = true -> m = A2) ->
     SiblingsResponse.siblings r = [A2] /\
     SiblingsResponse.current_index r = 0%Z /\
     SiblingsResponse.total r = 1%Z) /\
    (MessageBubble.hasSiblings (Some r) = true <->
     (1 < SiblingsResponse.total r)%Z) /\
    (forall m, In m (SiblingsResponse.siblings r) <->
               In m (Engine.nodes sample_store) /\
               Node.session_id m = Node.session_id A2 /\
               Node.parent_id m = Node.parent_id A2) /\
    NoDup (SiblingsResponse.siblings r) /\
    (forall i j a b ta tb,
       (i < j)%nat ->
       nth_error (SiblingsResponse.siblings r) i = Some a ->
       nth_error (SiblingsResponse.siblings r) j = Some b ->
       epoch_ms (Node.created_at a) = Some ta ->
       epoch_ms (Node.created_at b) = Some tb ->
       (ta <= tb)%Z) /\
    (forall node,
       MessageBubble.showsSiblingNav node (Some r) = true <->
       Node.role node <> user /\ (1 < SiblingsResponse.total r)%Z).
Proof.
  apply (siblingsOf_ordered_index_total epoch_ms sample_store A2).
  - unfold Engine.unique_ids. simpl.
    repeat constructor; simpl; intuition discriminate.
  - simpl. auto.
Defined.

(** C5, as the claim has it, fails: the branch navigation is not decided
    by the total alone. The first prompt of a Diverge run is a user
    message with a sibling, total 2, and its bubble shows no
    navigation. *)
Lemma sibling_nav_hidden_on_user_message :
  ~ (forall (node : Node.t) (r : SiblingsResponse.t),
       MessageBubble.showsSiblingNav node (Some r) = true <->
       (1 < SiblingsResponse.total r)%Z).
Proof.
  intros Hclaim.
  assert (Hshown : MessageBubble.showsSiblingNav P1 (Some siblings_of_P1)
                   = true).
  { apply Hclaim. simpl. lia. }
  discriminate Hshown.
Qed.

Lemma regenerate_rejects_user_turns_witness :
  Engine.branch sample_store "a3" "4000" "u1" "m"
    = (sample_store, inl Engine.InvalidRole) /\
  (MessageBubble.showsRegenerate A1 (Some false) = true <->
   Node.role A1 <> user /\ Some false <> Some true).
Proof.
  apply (regenerate_rejects_user_turns sample_store "a3" "4000" "u1" "m" U1
           A1 (Some false)); reflexivity.
Defined.

(** C6, as the claim has it, fails: a system message that is not streaming
    is offered the regenerate action although it is not an assistant
    message. *)
Lemma regenerate_offered_on_system_message :
  ~ (forall (node : Node.t) (isStreaming : option bool),
       MessageBubble.showsRegenerate node isStreaming = true ->
       Node.role node = assistant /\ isStreaming <> Some true).
Proof.
  intros Hclaim.
  destruct (Hclaim Sys1 (Some false) eq_refl) as [Hrole _].
  discriminate Hrole.
Qed.

(** Regenerating an assistant turn adds a pending sibling and leaves the
    turn itself in place. *)
Example branch_A1 :
  let '(st', r) := Engine.branch sample_store "a3" "4000" "a1" "m" in
  r = inr (Node.mk "a3" "S" (Some "u1") assistant "" "4000" (Some "m") false)
  /\ Engine.getNode st' "a1" = Some A1
  /\ Engine.pending st' = ["a3"]
  /\ option_map SiblingsResponse.total
       (match Engine.siblingsOf epoch_ms st' "a1" with
        | inr r => Some r | inl _ => None end) = Some 3%Z.
Proof. repeat split. Qed.

Lemma diverge_streams_are_independent_witness :
  let v0 := SplitView.mkView (SplitView.started left_prompt)
              (SplitView.started right_prompt)
              (SplitView.mkTask "" SplitView.Running)
              (SplitView.mkTask "" SplitView.Running) 0 in
  let v := SplitView.run v0 sample_schedule in
  SplitView.fullContent (SplitView.leftTask v) = "ab" /\
  SplitView.phase (SplitView.leftTask v) = SplitView.Returned /\
  SplitView.fullContent (SplitView.rightTask v) = "x" /\
  SplitView.phase (SplitView.rightTask v) = SplitView.Failed /\
  SplitView.fullContent (SplitView.leftTask v) =
    SplitView.delivered (SplitView.events_of SplitView.Left sample_schedule) /\
  SplitView.fullContent (SplitView.rightTask v) =
    SplitView.delivered (SplitView.events_of SplitView.Right sample_schedule).
Proof.
  pose proof (diverge_streams_are_independent "S" "m" (Some A1)
                left_prompt right_prompt
                (SplitView.mkView (SplitView.started left_prompt)
                   (SplitView.started right_prompt)
                   (SplitView.mkTask "" SplitView.Running)
                   (SplitView.mkTask "" SplitView.Running) 0)
                (SplitView.mkRequest "S" "Explain" (Some "a1") "m")
                (SplitView.mkRequest "S" "Summarise" (Some "a1") "m")
                sample_schedule eq_refl) as H.
  cbv zeta in H. destruct H as (_ & _ & _ & _ & Hl & Hr & _).
  cbv zeta. repeat split; try reflexivity; assumption.
Defined.

(* ===================================================================== *)
(** * Further properties of the hook *)
(* ===================================================================== *)

(** The loop in full: it resolves, changes no cell but [streamingContent],
    and ends with the last non-empty node id and the tokens received. *)
Lemma consume_events_run events : forall acc st,
  exists shown,
    consume_events acc events st =
    (ChatState.mk (ChatState.sessions st) (ChatState.currentSession st)
       (ChatState.nodes st) (ChatState.activeNodeId st)
       (ChatState.currentPath st) (ChatState.isStreaming st) shown
       (ChatState.pendingUserMessage st) (ChatState.selectedModel st),
     Resolved (last_node_id (fst acc) events,
               (snd acc ++ received events)%string)).
Proof.
  induction events as [|c events IH]; intros [nid full] st.
  - exists (ChatState.streamingContent st). simpl.
    rewrite append_empty_r. now destruct st.
  - cbn [consume_events last_node_id fst snd]. unfold bind.
    rewrite consume_chunk_run. rewrite received_cons. cbn [fst snd].
    destruct (ChatStreamChunk.done c); cbv zeta.
    + exact (IH (_, full) st).
    + destruct (IH (if truthy (ChatStreamChunk.node_id c)
                    then Some (ChatStreamChunk.node_id c) else nid,
                    (full ++ ChatStreamChunk.token c)%string)
                  (fst (setStreamingContent
                          (full ++ ChatStreamChunk.token c)%string st)))
        as (shown & Hrun).
      exists shown. cbn [fst snd] in Hrun. rewrite Hrun.
      rewrite append_assoc. reflexivity.
Qed.

Lemma last_node_id_proper events : forall start,
  or_null start = start ->
  or_null (last_node_id start events) = last_node_id start events.
Proof.
  induction events as [|c events IH]; intros start Hstart; [exact Hstart|].
  simpl. apply IH.
  destruct (truthy (ChatStreamChunk.node_id c)) eqn:Ht; [|exact Hstart].
  simpl. now rewrite Ht.
Qed.

(** The node id the loop ends with is the one of the last chunk that has
    one. *)
Lemma last_node_id_found pre c post start :
  truthy (ChatStreamChunk.node_id c) = true ->
  Forall (fun d => ChatStreamChunk.node_id d = "") post ->
  last_node_id start (pre ++ c :: post) = Some (ChatStreamChunk.node_id c).
Proof.
  intros Hc Hpost. revert start.
  induction pre as [|a pre IH]; intros start.
  - simpl. rewrite Hc. clear Hc.
    induction Hpost as [|d post Hd _ IHp]; [reflexivity|].
    simpl. now rewrite Hd.
  - simpl. apply IH.
Qed.

Section HookFacts.

Variable Date_value : string -> option Z.
Variable api : Api.t.

(** Everything [sendMessage] can do once its guard is passed. *)
Lemma sendMessage_run content st cs :
  ChatState.currentSession st = Some cs ->
  ChatState.isStreaming st = false ->
  let stream := Api.streamChat api (Session.id cs) content
                  (ChatState.activeNodeId st) (ChatState.selectedModel st) in
  let stay nodes := settled st nodes (ChatState.activeNodeId st)
                      (ChatState.currentPath st) None in
  sendMessage api content st =
  match ChatStream.closes stream with
  | Rejected msg => (stay (ChatState.nodes st), Rejected msg)
  | Resolved _ =>
      match Api.getSessionTree api (Session.id cs) with
      | Rejected msg => (stay (ChatState.nodes st), Rejected msg)
      | Resolved tree =>
          match last_node_id None (ChatStream.events stream) with
          | None => (stay (TreeResponse.nodes tree), Resolved tt)
          | Some nodeId =>
              match Api.getNodePath api nodeId with
              | Rejected msg => (stay (TreeResponse.nodes tree), Rejected msg)
              | Resolved path =>
                  (settled st (TreeResponse.nodes tree) (Some nodeId) path
                     None, Resolved tt)
              end
          end
      end
  end.
Proof.
  intros Hcs Hstr. cbv zeta.
  destruct st as [ss cur ns act pth str cont pend mdl].
  simpl in Hcs, Hstr. subst cur str.
  unfold sendMessage, settled. cbn.
  remember (Api.streamChat api (Session.id cs) content act mdl) as stream.
  unfold try_finally, for_await, bind.
  match goal with |- context [consume_events ?a ?e ?s] =>
    destruct (consume_events_run e a s) as (shown & Hrun) end.
  cbn in Hrun. rewrite Hrun. clear Hrun. cbn.
  destruct (ChatStream.closes stream) as [[]|msg]; [|reflexivity].
  unfold ret, refreshTree, bind, await. cbn.
  rewrite (last_node_id_proper (ChatStream.events stream) None eq_refl).
  destruct (Api.getSessionTree api (Session.id cs)) as [tree|msg];
    [|reflexivity].
  cbn. destruct (last_node_id None (ChatStream.events stream)) as [nodeId|];
    [|reflexivity].
  unfold updatePath, bind, await.
  destruct (Api.getNodePath api nodeId) as [path|msg]; reflexivity.
Qed.

End HookFacts.

Section MoreHookFacts.

Variable Date_value : string -> option Z.
Variable api : Api.t.
Variable sapi : SessionApi.t.

(** [sendMessage] does nothing without a current session or while a
    stream is running; otherwise, whatever the backend answers and whether
    it resolves or rejects, it ends with [isStreaming] false, the streaming
    content empty and no pending user message, and it leaves the session
    list, the current session and the selected model as they were. *)
Theorem sendMessage_settles (content : string) (st : ChatState.t) :
  (ChatState.currentSession st = None \/ ChatState.isStreaming st = true ->
   sendMessage api content st = (st, Resolved tt)) /\
  (forall cs, ChatState.currentSession st = Some cs ->
              ChatState.isStreaming st = false ->
              exists nodes active path r,
                sendMessage api content st =
                (settled st nodes active path None, r)).
Proof.
  split.
  - unfold sendMessage. intros [Hnone|Hbusy].
    + now rewrite Hnone.
    + rewrite Hbusy. now destruct (ChatState.currentSession st).
  - intros cs Hcs Hstr. rewrite (sendMessage_run api content st cs Hcs Hstr).
    cbv zeta.
    destruct (ChatStream.closes _) as [[]|msg]; [|eauto].
    destruct (Api.getSessionTree api _) as [tree|msg]; [|eauto].
    destruct (last_node_id None _) as [nodeId|]; [|eauto].
    destruct (Api.getNodePath api nodeId) as [path|msg]; eauto.
Qed.

(** When the stream ends well and the tree and the path are served,
    [sendMessage] reloads the tree and makes the node of the last chunk
    that carries a node id the active one, with the path the backend gives
    for it. *)
Theorem sendMessage_navigates_to_last_node
    (content : string) (st : ChatState.t) (cs : Session.t)
    (pre post : list ChatStreamChunk.t) (c : ChatStreamChunk.t)
    (tree : TreeResponse.t) (path : list Node.t)
    (Hcs : ChatState.currentSession st = Some cs)
    (Hidle : ChatState.isStreaming st = false)
    (Hstream : Api.streamChat api (Session.id cs) content
                 (ChatState.activeNodeId st) (ChatState.selectedModel st)
               = ChatStream.mk (pre ++ c :: post) (Resolved tt))
    (Hc : ChatStreamChunk.node_id c <> "")
    (Hpost : Forall (fun d => ChatStreamChunk.node_id d = "") post)
    (Htree : Api.getSessionTree api (Session.id cs) = Resolved tree)
    (Hpath : Api.getNodePath api (ChatStreamChunk.node_id c) = Resolved path) :
  sendMessage api content st =
  (settled st (TreeResponse.nodes tree) (Some (ChatStreamChunk.node_id c))
     path None,
   Resolved tt).
Proof.
  rewrite (sendMessage_run api content st cs Hcs Hidle). cbv zeta.
  rewrite Hstream. cbn [ChatStream.closes ChatStream.events]. rewrite Htree.
  rewrite (last_node_id_found pre c post None); [now rewrite Hpath| |exact Hpost].
  destruct (ChatStreamChunk.node_id c); [congruence | reflexivity].
Qed.

(** When the stream breaks, [sendMessage] rejects with the stream's
    error; the tree is not reloaded and the view stays where it was: the
    nodes, the current path and the active node id are unchanged, and the
    tokens received so far are no longer shown. *)
Theorem sendMessage_stream_failure_keeps_view
    (content : string) (st : ChatState.t) (cs : Session.t)
    (events : list ChatStreamChunk.t) (msg : string)
    (Hcs : ChatState.currentSession st = Some cs)
    (Hidle : ChatState.isStreaming st = false)
    (Hstream : Api.streamChat api (Session.id cs) content
                 (ChatState.activeNodeId st) (ChatState.selectedModel st)
               = ChatStream.mk events (Rejected msg)) :
  sendMessage api content st =
  (settled st (ChatState.nodes st) (ChatState.activeNodeId st)
     (ChatState.currentPath st) None,
   Rejected msg).
Proof.
  rewrite (sendMessage_run api content st cs Hcs Hidle). cbv zeta.
  now rewrite Hstream.
Qed.

(** Everything [regenerate] can do once its guard is passed. *)
Lemma regenerate_run nodeId st :
  ChatState.isStreaming st = false ->
  let stream := Api.streamBranch api nodeId (ChatState.selectedModel st) in
  let stay nodes := settled st nodes (ChatState.activeNodeId st)
                      (ChatState.currentPath st)
                      (ChatState.pendingUserMessage st) in
  let go nodes :=
    match last_node_id None (ChatStream.events stream) with
    | None => (stay nodes, Resolved tt)
    | Some newNodeId =>
        match Api.getNodePath api newNodeId with
        | Rejected msg => (stay nodes, Rejected msg)
        | Resolved path =>
            (settled st nodes (Some newNodeId) path
               (ChatState.pendingUserMessage st), Resolved tt)
        end
    end in
  regenerate api nodeId st =
  match ChatStream.closes stream with
  | Rejected msg => (stay (ChatState.nodes st), Rejected msg)
  | Resolved _ =>
      match ChatState.currentSession st with
      | None => go (ChatState.nodes st)
      | Some cs =>
          match Api.getSessionTree api (Session.id cs) with
          | Rejected msg => (stay (ChatState.nodes st), Rejected msg)
          | Resolved tree => go (TreeResponse.nodes tree)
          end
      end
  end.
Proof.
  intros Hstr. cbv zeta.
  destruct st as [ss cur ns act pth str cont pend mdl].
  simpl in Hstr. subst str.
  unfold regenerate, settled. cbn.
  remember (Api.streamBranch api nodeId mdl) as stream.
  unfold try_finally, for_await, bind.
  match goal with |- context [consume_events ?a ?e ?s] =>
    destruct (consume_events_run e a s) as (shown & Hrun) end.
  cbn in Hrun. rewrite Hrun. clear Hrun. cbn.
  destruct (ChatStream.closes stream) as [[]|msg]; [|reflexivity].
  unfold ret, refreshTree, bind, await. cbn.
  rewrite (last_node_id_proper (ChatStream.events stream) None eq_refl).
  destruct cur as [cs|].
  - destruct (Api.getSessionTree api (Session.id cs)) as [tree|msg];
      [|reflexivity].
    cbn. destruct (last_node_id None (ChatStream.events stream)) as [n|];
      [|reflexivity].
    unfold updatePath, bind, await.
    destruct (Api.getNodePath api n) as [path|msg]; reflexivity.
  - unfold ret. cbn.
    destruct (last_node_id None (ChatStream.events stream)) as [n|];
      [|reflexivity].
    unfold updatePath, bind, await.
    destruct (Api.getNodePath api n) as [path|msg]; reflexivity.
Qed.

(** [regenerate] does nothing while a stream is running; otherwise it
    ends, resolved or rejected, with [isStreaming] false and the streaming
    content empty, and it never touches the pending user message, the
    session list, the current session or the selected model. Without a
    current session the node list is not reloaded. *)
Theorem regenerate_settles (nodeId : string) (st : ChatState.t) :
  (ChatState.isStreaming st = true ->
   regenerate api nodeId st = (st, Resolved tt)) /\
  (ChatState.isStreaming st = false ->
   exists nodes active path r,
     regenerate api nodeId st =
     (settled st nodes active path (ChatState.pendingUserMessage st), r) /\
     (ChatState.currentSession st = None -> nodes = ChatState.nodes st)).
Proof.
  split.
  - unfold regenerate. now intros ->.
  - intros Hstr. rewrite (regenerate_run nodeId st Hstr). cbv zeta.
    destruct (ChatStream.closes _) as [[]|msg]; [|eauto 10].
    destruct (ChatState.currentSession st) as [cs|].
    + destruct (Api.getSessionTree api _) as [tree|msg];
        [|eexists _, _, _, _; split; [reflexivity | discriminate]].
      destruct (last_node_id None _) as [n|];
        [|eexists _, _, _, _; split; [reflexivity | discriminate]].
      destruct (Api.getNodePath api n) as [path|msg];
        eexists _, _, _, _; split; try reflexivity; discriminate.
    + destruct (last_node_id None _) as [n|]; [|eauto 10].
      destruct (Api.getNodePath api n) as [path|msg]; eauto 10.
Qed.

(** The two ways [selectSession] can reject leave a mixed view. When
    the tree request fails, the current session is already the new one
    while the nodes, the path and the active node are still the former
    ones; when the path request fails, the nodes are the new ones and the
    path and the active node the former ones. *)
Theorem selectSession_rejections (session : Session.t) (st : ChatState.t) :
  (forall msg,
     Api.getSessionTree api (Session.id session) = Rejected msg ->
     selectSession Date_value api session st =
     (fst (setCurrentSession (Some session) st), Rejected msg)) /\
  (forall tree first rest msg,
     Api.getSessionTree api (Session.id session) = Resolved tree ->
     leafNodes (TreeResponse.nodes tree) = first :: rest ->
     Api.getNodePath api (Node.id (latestLeaf Date_value first rest))
       = Rejected msg ->
     selectSession Date_value api session st =
     (fst (setNodes (TreeResponse.nodes tree)
             (fst (setCurrentSession (Some session) st))),
      Rejected msg)).
Proof.
  split.
  - intros msg Htree. unfold selectSession, bind, await. cbn.
    now rewrite Htree.
  - intros tree first rest msg Htree Hl Hpath.
    unfold selectSession, bind, await. cbn. rewrite Htree.
    destruct (TreeResponse.nodes tree) as [|n0 ns] eqn:Hn; [discriminate|].
    cbn [length Nat.ltb Nat.leb]. rewrite Hl.
    unfold updatePath, bind, await. now rewrite Hpath.
Qed.

(** On a tree that is not empty and has no leaf, every node being the
    parent of some node, [selectSession] resolves, installs the session
    and its nodes, and leaves the current path and the active node id of
    the former view as they were. *)
Theorem selectSession_without_leaf_keeps_path
    (session : Session.t) (st : ChatState.t) (tree : TreeResponse.t)
    (Htree : Api.getSessionTree api (Session.id session) = Resolved tree)
    (Hnodes : TreeResponse.nodes tree <> [])
    (Hparents : forall n, In n (TreeResponse.nodes tree) ->
                  Node.id n <> "" /\
                  exists m, In m (TreeResponse.nodes tree) /\
                            Node.parent_id m = Some (Node.id n)) :
  selectSession Date_value api session st =
  (ChatState.mk (ChatState.sessions st) (Some session)
     (TreeResponse.nodes tree) (ChatState.activeNodeId st)
     (ChatState.currentPath st) (ChatState.isStreaming st)
     (ChatState.streamingContent st) (ChatState.pendingUserMessage st)
     (ChatState.selectedModel st),
   Resolved tt).
Proof.
  assert (Hleaf : leafNodes (TreeResponse.nodes tree) = []).
  { destruct (leafNodes (TreeResponse.nodes tree)) as [|l ls] eqn:Hl;
      [reflexivity|].
    assert (Hin : In l (leafNodes (TreeResponse.nodes tree)))
      by (rewrite Hl; now left).
    apply leafNodes_in in Hin. destruct Hin as [Hin Hnot].
    exfalso. apply Hnot. apply parentIds_in; [exact Date_value|].
    destruct (Hparents l Hin) as [Hid Hm]. split; [|exact Hm].
    destruct (Node.id l); [congruence | reflexivity]. }
  unfold selectSession, bind, await. cbn. rewrite Htree.
  destruct (TreeResponse.nodes tree) as [|n0 ns] eqn:Hn; [congruence|].
  cbn [length Nat.ltb Nat.leb]. rewrite Hleaf. reflexivity.
Qed.

End MoreHookFacts.

Section SessionFacts.

Variable Date_value : string -> option Z.
Variable api : Api.t.
Variable sapi : SessionApi.t.

(** Among the leaves, [reduce] picks the last one of the latest instant:
    no leaf before it in the array is later, and every leaf after it is
    strictly earlier. *)
Theorem latestLeaf_is_last_of_latest (first : Node.t) (rest : list Node.t)
    (Hdates : forall n, In n (first :: rest) ->
                        exists t, has_instant Date_value n t) :
  exists pre post t,
    first :: rest = pre ++ latestLeaf Date_value first rest :: post /\
    has_instant Date_value (latestLeaf Date_value first rest) t /\
    (forall x u, In x pre -> has_instant Date_value x u -> (u <= t)%Z) /\
    (forall x u, In x post -> has_instant Date_value x u -> (u < t)%Z).
Proof.
  induction rest as [|b rest IH] using rev_ind.
  - destruct (Hdates first (or_introl eq_refl)) as (t & Ht).
    exists [], [], t. repeat split; auto; intros x u [].
  - destruct IH as (pre & post & t & Heq & Ht & Hpre & Hpost).
    { intros n Hn. apply Hdates. destruct Hn as [<-|Hn]; [now left|].
      right. apply in_or_app. now left. }
    destruct (Hdates b) as (tb & Hb).
    { right. apply in_or_app. right. now left. }
    unfold latestLeaf in *. rewrite fold_left_app. cbn [fold_left].
    set (r := fold_left (later Date_value) rest first) in *.
    unfold later, Date_gt. unfold has_instant in Ht, Hb. rewrite Ht, Hb.
    destruct (Z.ltb_spec tb t) as [Hlt|Hge].
    + exists pre, (post ++ [b]), t.
      split; [|split; [exact Ht | split; [exact Hpre|]]].
      * change (first :: rest ++ [b]) with ((first :: rest) ++ [b]).
        rewrite Heq, <- app_assoc. reflexivity.
      * intros x u Hx Hu. apply in_app_or in Hx.
        destruct Hx as [Hx|[<-|[]]]; [eauto|].
        unfold has_instant in Hu. rewrite Hb in Hu. inversion Hu; subst. lia.
    + exists (first :: rest), [], tb.
      split; [reflexivity | split; [exact Hb | split; [|intros x u []]]].
      intros x u Hx Hu. rewrite Heq in Hx. apply in_app_or in Hx.
      destruct Hx as [Hx|[<-|Hx]].
      * specialize (Hpre x u Hx Hu). lia.
      * unfold has_instant in Hu. rewrite Ht in Hu. inversion Hu; subst. lia.
      * specialize (Hpost x u Hx Hu). lia.
Qed.

(** [renameSession] changes nothing when the backend refuses the rename
    or the reload of the session list fails, the latter even though the
    session is renamed in the backend. Otherwise the session list is
    reloaded, the current session takes the requested name when its id is
    the renamed one (its id and dates kept) and is left alone when it is
    not; the nodes, the path and the active node never change. *)
Theorem renameSession_renames_current_only
    (sessionId name : string) (st : ChatState.t) :
  (forall msg,
     SessionApi.renameSession sapi sessionId name = Rejected msg ->
     renameSession api sapi sessionId name st = (st, Rejected msg)) /\
  (forall s msg,
     SessionApi.renameSession sapi sessionId name = Resolved s ->
     Api.getSessions api = Rejected msg ->
     renameSession api sapi sessionId name st = (st, Rejected msg)) /\
  (forall s data,
     SessionApi.renameSession sapi sessionId name = Resolved s ->
     Api.getSessions api = Resolved data ->
     exists st',
       renameSession api sapi sessionId name st = (st', Resolved tt) /\
       ChatState.sessions st' = data /\
       ChatState.nodes st' = ChatState.nodes st /\
       ChatState.currentPath st' = ChatState.currentPath st /\
       ChatState.activeNodeId st' = ChatState.activeNodeId st /\
       (forall cs, ChatState.currentSession st = Some cs ->
                   Session.id cs = sessionId ->
                   ChatState.currentSession st' =
                     Some (Session.mk sessionId name (Session.created_at cs)
                             (Session.updated_at cs))) /\
       ((forall cs, ChatState.currentSession st = Some cs ->
                    Session.id cs <> sessionId) ->
        ChatState.currentSession st' = ChatState.currentSession st)).
Proof.
  unfold renameSession, loadSessions, bind, await.
  split; [|split].
  - intros msg ->. reflexivity.
  - intros s msg -> ->. reflexivity.
  - intros s data -> ->. cbn.
    destruct (ChatState.currentSession st) as [cs|] eqn:Hcs; cbn.
    + destruct (String.eqb_spec (Session.id cs) sessionId) as [Hid|Hid].
      * eexists. split; [reflexivity|]. cbn.
        repeat split; auto.
        -- intros cs' Hcs' _. inversion Hcs'; subst cs'.
           unfold with_name. now rewrite Hid.
        -- intros Hother. now destruct (Hother cs eq_refl).
      * eexists. split; [reflexivity|]. cbn.
        repeat split; auto. intros cs' Hcs' Hid'. inversion Hcs'; subst.
        congruence.
    + eexists. split; [reflexivity|]. cbn. repeat split; auto.
      intros cs Hcs'. discriminate.
Qed.

(** [createNewSession] changes nothing when the backend refuses to create
    the session or the reload of the list fails. When the session is
    created, the list reloaded and the (empty) tree of the new session
    served, it returns the created session with the list reloaded, the new
    session current, and an empty view. *)
Theorem createNewSession_opens_empty_session
    (name : option string) (st : ChatState.t) :
  (forall msg,
     api_createSession sapi name = Rejected msg ->
     createNewSession Date_value api sapi name st = (st, Rejected msg)) /\
  (forall s msg,
     api_createSession sapi name = Resolved s ->
     Api.getSessions api = Rejected msg ->
     createNewSession Date_value api sapi name st = (st, Rejected msg)) /\
  (forall s data,
     api_createSession sapi name = Resolved s ->
     Api.getSessions api = Resolved data ->
     Api.getSessionTree api (Session.id s) =
       Resolved (TreeResponse.mk (Session.id s) []) ->
     createNewSession Date_value api sapi name st =
     (ChatState.mk data (Some s) [] None [] (ChatState.isStreaming st)
        (ChatState.streamingContent st) (ChatState.pendingUserMessage st)
        (ChatState.selectedModel st),
      Resolved s)).
Proof.
  unfold createNewSession, loadSessions, bind, await.
  split; [|split].
  - intros msg ->. reflexivity.
  - intros s msg -> ->. reflexivity.
  - intros s data -> -> Htree. cbn.
    unfold selectSession, bind, await. cbn. rewrite Htree. reflexivity.
Qed.

End SessionFacts.

(* ===================================================================== *)
(** * Further properties of the stream parsers *)
(* ===================================================================== *)

Section MoreParserFacts.

Variable J : Type.
Variable JSON_parse : string -> option J.

(** The loop yields what the loop over lines makes of the complete lines
    of the whole text, for any [JSON.parse]. *)
Lemma stream_loop_lines reads : forall buffer,
  split_nl buffer = [buffer] ->
  stream_loop J JSON_parse buffer reads =
  yield_lines J JSON_parse (complete_lines (buffer ++ join reads)%string).
Proof.
  induction reads as [|value rest IH]; intros buffer Hbuf.
  - simpl. unfold complete_lines. rewrite append_empty_r, Hbuf. reflexivity.
  - simpl stream_loop. unfold read_step.
    rewrite (pop_or_empty_last _ (split_nl_not_nil _)).
    rewrite (IH _ (split_nl_last _)).
    unfold complete_lines. simpl join. rewrite <- append_assoc.
    rewrite (split_nl_app (buffer ++ value) (join rest)).
    rewrite (removelast_app_r _ _ (split_nl_not_nil _)).
    unfold yield_lines. now rewrite flat_map_app.
Qed.

(** How the body is cut into reads does not matter: two sequences of
    reads that carry the same text make each parser yield the same
    values. *)
Theorem stream_parsers_ignore_chunking
    (reads1 reads2 : list string) (sessionId content model : string)
    (parentId : option string)
    (Hsame : join reads1 = join reads2) :
  streamChat J JSON_parse sessionId content parentId model (Some reads1) =
  streamChat J JSON_parse sessionId content parentId model (Some reads2).
Proof.
  unfold streamChat, parse_body.
  rewrite !(stream_loop_lines _ "" eq_refl). simpl. now rewrite Hsame.
Qed.

Lemma split_nl_length s : length (split_nl s) = S (count_nl s).
Proof.
  induction s as [|c s IH]; [reflexivity|].
  cbn [split_nl count_nl]. destruct (Ascii.eqb c nl).
  - simpl. now rewrite IH.
  - pose proof (split_nl_not_nil s) as Hne.
    destruct (split_nl s) as [|l ls]; [congruence|].
    simpl in *. exact IH.
Qed.

Lemma removelast_length {A} (l : list A) :
  length (removelast l) = (length l - 1)%nat.
Proof.
  induction l as [|a l IH]; [reflexivity|].
  destruct l as [|b l]; [reflexivity|].
  change (removelast (a :: b :: l)) with (a :: removelast (b :: l)).
  simpl length in *. rewrite IH. lia.
Qed.

Lemma yield_lines_length lines :
  (length (yield_lines J JSON_parse lines) <= length lines)%nat.
Proof.
  unfold yield_lines. induction lines as [|l ls IH]; [simpl; lia|].
  simpl. rewrite length_app. unfold yield_line at 1.
  destruct (trim_truthy l); [destruct (JSON_parse l)|]; simpl; lia.
Qed.

(** The parser yields at most one value per newline received; a body
    without a newline yields nothing, whatever it holds. *)
Theorem stream_parsers_yield_at_most_one_per_newline (reads : list string) :
  (length (stream_loop J JSON_parse "" reads) <= count_nl (join reads))%nat /\
  (count_nl (join reads) = 0%nat -> stream_loop J JSON_parse "" reads = []).
Proof.
  assert (Hle : (length (stream_loop J JSON_parse "" reads)
                 <= count_nl (join reads))%nat).
  { rewrite (stream_loop_lines reads "" eq_refl). simpl.
    etransitivity; [apply yield_lines_length|].
    unfold complete_lines. rewrite removelast_length, split_nl_length. lia. }
  split; [exact Hle|].
  intros Hzero. rewrite Hzero in Hle.
  destruct (stream_loop J JSON_parse "" reads);
    [reflexivity | simpl in Hle; lia].
Qed.

End MoreParserFacts.

(* ===================================================================== *)
(** * Further properties of the components *)
(* ===================================================================== *)

Lemma array_get_nat {A} (l : list A) (i : nat) :
  array_get l (Z.of_nat i) = nth_error l i.
Proof.
  unfold array_get. destruct (Z.ltb_spec (Z.of_nat i) 0); [lia|].
  now rewrite Nat2Z.id.
Qed.

(** Going to the previous sibling and then to the next one comes back:
    for the responses of two neighbours over the same sibling list, the
    previous handler of the later one navigates to the earlier one, and
    the next handler of the earlier one navigates to the later one. *)
Theorem sibling_navigation_round_trip
    (sibs : list Node.t) (i : nat) (a b : Node.t)
    (Ha : nth_error sibs i = Some a)
    (Hb : nth_error sibs (S i) = Some b) :
  let total := Z.of_nat (length sibs) in
  let at_a := SiblingsResponse.mk sibs (Z.of_nat i) total in
  let at_b := SiblingsResponse.mk sibs (Z.of_nat (S i)) total in
  MessageBubble.handlePrevSibling (Some at_b)
    = MessageBubble.Navigate (Node.id a) /\
  MessageBubble.handleNextSibling (Some at_a)
    = MessageBubble.Navigate (Node.id b).
Proof.
  assert (Hlen : (S i < length sibs)%nat).
  { apply nth_error_Some. congruence. }
  cbv zeta. unfold MessageBubble.handlePrevSibling,
    MessageBubble.handleNextSibling.
  cbn [SiblingsResponse.current_index SiblingsResponse.total
       SiblingsResponse.siblings].
  destruct (Z.ltb_spec 0 (Z.of_nat (S i))) as [_|H]; [|lia].
  destruct (Z.ltb_spec (Z.of_nat i) (Z.of_nat (length sibs) - 1)) as [_|H];
    [|lia].
  replace (Z.of_nat (S i) - 1)%Z with (Z.of_nat i) by lia.
  replace (Z.of_nat i + 1)%Z with (Z.of_nat (S i)) by lia.
  now rewrite !array_get_nat, Ha, Hb.
Qed.

Lemma getParentForSplit_tip above tip :
  App.getParentForSplit (above ++ [tip]) = Some tip.
Proof.
  unfold App.getParentForSplit. rewrite length_app. simpl.
  destruct (Nat.eqb_spec (length above + 1) 0) as [H|_]; [lia|].
  replace (Z.of_nat (length above + 1) - 1)%Z with (Z.of_nat (length above))
    by lia.
  rewrite array_get_nat, nth_error_app2 by lia.
  now rewrite Nat.sub_diag.
Qed.

(** Diverge Mode branches from the tip of the current path. Whenever the
    split button of the chat is enabled the path has a last node, that
    node is the parent handed to the split view, and both requests of
    [handleSendBoth] carry its id; on an empty path there is no parent. *)
Theorem diverge_branches_from_path_tip
    (currentPath : list Node.t) (isStreaming : bool)
    (Henabled : ChatInterface.splitDisabled isStreaming currentPath = false) :
  exists above tip,
    currentPath = above ++ [tip] /\
    App.getParentForSplit currentPath = Some tip /\
    forall sessionId model left right v reqL reqR,
      SplitView.handleSendBoth sessionId (App.getParentForSplit currentPath)
        model left right = Some (v, reqL, reqR) ->
      SplitView.req_parentId reqL = or_null (Some (Node.id tip)) /\
      SplitView.req_parentId reqR = or_null (Some (Node.id tip)).
Proof.
  unfold ChatInterface.splitDisabled in Henabled.
  apply orb_false_elim in Henabled. destruct Henabled as [_ Hlen].
  destruct (exists_last (l := currentPath)) as (above & tip & ->).
  { intros ->. discriminate. }
  exists above, tip. rewrite getParentForSplit_tip.
  repeat split; intros; unfold SplitView.handleSendBoth in *;
    destruct (negb _ || negb _); try discriminate;
    destruct (_ || _); try discriminate;
    inversion H; subst; reflexivity.
Qed.

(** The context shown in the split view is the end of the current path:
    its last four nodes, all of them when there are fewer, ending with the
    node the branches start from. *)
Theorem contextMessages_end_of_path (currentPath : list Node.t) :
  (exists before, currentPath = before ++ contextMessages currentPath) /\
  length (contextMessages currentPath) = Nat.min 4 (length currentPath) /\
  (forall tip, App.getParentForSplit currentPath = Some tip ->
               exists shown, contextMessages currentPath = shown ++ [tip]).
Proof.
  unfold contextMessages, slice_last. repeat split.
  - exists (firstn (length currentPath - 4) currentPath).
    symmetry. apply firstn_skipn.
  - rewrite length_skipn. lia.
  - intros tip Htip.
    destruct currentPath as [|n0 ns] eqn:Hp; [discriminate|].
    rewrite <- Hp in *.
    destruct (exists_last (l := currentPath)) as (above & t & Hl);
      [congruence|].
    rewrite Hl in Htip |- *. rewrite getParentForSplit_tip in Htip.
    inversion Htip; subst t.
    exists (skipn (length (above ++ [tip]) - 4) above).
    rewrite skipn_app, length_app. simpl length.
    replace (length above + 1 - 4 - length above)%nat with 0%nat by lia.
    reflexivity.
Qed.

Lemma append_length (a b : string) :
  String.length (a ++ b) = (String.length a + String.length b)%nat.
Proof. induction a as [|c a IH]; simpl; [reflexivity | now rewrite IH]. Qed.

(** A content that fits is shown whole; a longer one is cut to its first
    [n] UTF-16 code units followed by three dots, so a preview never
    exceeds [n + 3] code units. *)
Theorem preview_bounds (n : nat) (s : CodeUnits) :
  ((length s <= n)%nat -> preview n s = s) /\
  ((n < length s)%nat ->
   s = firstn n s ++ skipn n s /\
   length (firstn n s) = n /\
   preview n s = firstn n s ++ dots /\
   length (preview n s) = (n + 3)%nat) /\
  (length (preview n s) <= n + 3)%nat.
Proof.
  unfold preview. destruct (Nat.ltb_spec n (length s)) as [Hlt|Hge].
  - assert (Hlen : length (firstn n s) = n)
      by (apply firstn_length_le; lia).
    assert (Hall : length (firstn n s ++ dots) = (n + 3)%nat)
      by (rewrite length_app, Hlen; reflexivity).
    split; [lia|]. split; [|lia].
    intros _. split; [symmetry; apply firstn_skipn|].
    split; [exact Hlen|]. split; [reflexivity | exact Hall].
  - rewrite (firstn_all2 s Hge), app_nil_r.
    split; [reflexivity|]. split; [lia | lia].
Qed.

(** ** The graph view *)

Lemma flowEdges_in nodes active e :
  In e (GraphView.flowEdges nodes active) <->
  exists node p, In node nodes /\ Node.parent_id node = Some p /\
                 p <> "" /\ e = edge_of active node p.
Proof.
  unfold GraphView.flowEdges. rewrite in_flat_map. split.
  - intros (node & Hin & He).
    destruct (Node.parent_id node) as [p|] eqn:Hp; [|destruct He].
    destruct p as [|c p]; [destruct He|].
    destruct He as [<-|[]]. exists node, (String c p).
    repeat split; auto. discriminate.
  - intros (node & p & Hin & Hp & Hne & ->). exists node. split; [exact Hin|].
    rewrite Hp. destruct p; [congruence|]. now left.
Qed.

(** The graph draws one edge per node that has a parent, from the parent
    to the node, in the order of the nodes, and none into a node without a
    parent: the targets of the edges are the ids of the nodes with a
    parent, and the sources their parent ids. *)
Theorem graph_edges_follow_parents
    (nodes : list Node.t) (active : option string) :
  map GraphView.target (GraphView.flowEdges nodes active)
    = map Node.id (filter has_parent nodes) /\
  map (fun e => Some (GraphView.source e)) (GraphView.flowEdges nodes active)
    = map Node.parent_id (filter has_parent nodes) /\
  (length (GraphView.flowEdges nodes active)
   + length (filter (fun n => negb (has_parent n)) nodes)
   = length nodes)%nat.
Proof.
  unfold GraphView.flowEdges, has_parent.
  induction nodes as [|n ns (IHt & IHs & IHl)]; [repeat split|].
  cbn [flat_map filter].
  destruct (Node.parent_id n) as [p|] eqn:Hp; [destruct (truthy p) eqn:Ht|];
    cbn [negb app map length]; rewrite ?IHt, ?IHs, ?Hp;
    repeat split; try reflexivity; lia.
Qed.

(** With unique node ids the graph highlights at most one node and at
    most one edge: the node whose id is the active one is marked active
    and the edge that enters it is animated, and nothing else is. *)
Theorem graph_highlights_one
    (nodes : list Node.t) (active : option string)
    (Hunique : NoDup (map Node.id nodes)) :
  (forall f1 f2,
     In f1 (GraphView.flowNodes nodes active) ->
     In f2 (GraphView.flowNodes nodes active) ->
     GraphView.isActive f1 = true -> GraphView.isActive f2 = true ->
     f1 = f2) /\
  (forall e1 e2,
     In e1 (GraphView.flowEdges nodes active) ->
     In e2 (GraphView.flowEdges nodes active) ->
     GraphView.animated e1 = true -> GraphView.animated e2 = true ->
     e1 = e2) /\
  (forall f, In f (GraphView.flowNodes nodes active) ->
             GraphView.isActive f = true ->
             active = Some (GraphView.flow_id f)) /\
  (forall e, In e (GraphView.flowEdges nodes active) ->
             GraphView.animated e = true ->
             active = Some (GraphView.target e)) /\
  (forall n, In n nodes -> active = Some (Node.id n) ->
             In (GraphView.mkFlowNode (Node.id n) n true)
                (GraphView.flowNodes nodes active)) /\
  (forall n p, In n nodes -> active = Some (Node.id n) ->
               Node.parent_id n = Some p -> p <> "" ->
               In (GraphView.mkEdge (GraphView.edge_id p (Node.id n)) p
                     (Node.id n) true)
                  (GraphView.flowEdges nodes active)).
Proof.
  assert (Hon : forall x, active = Some x ->
                          GraphView.is_active_id x active = true).
  { intros x ->. simpl. apply String.eqb_refl. }
  assert (Hact : forall x, GraphView.is_active_id x active = true ->
                           active = Some x).
  { intros x. unfold GraphView.is_active_id. destruct active as [a|];
      [|discriminate]. intros H. apply String.eqb_eq in H. now subst. }
  assert (Hsame : forall n m, In n nodes -> In m nodes ->
            GraphView.is_active_id (Node.id n) active = true ->
            GraphView.is_active_id (Node.id m) active = true -> n = m).
  { intros n m Hn Hm Han Ham. apply (unique_ids_inj nodes n m Hunique Hn Hm).
    apply Hact in Han, Ham. congruence. }
  unfold GraphView.flowNodes. repeat split.
  - intros f1 f2 H1 H2. apply in_map_iff in H1, H2.
    destruct H1 as (n & <- & Hn), H2 as (m & <- & Hm). simpl.
    intros Han Ham. now rewrite (Hsame n m Hn Hm Han Ham).
  - intros e1 e2 H1 H2. apply flowEdges_in in H1, H2.
    destruct H1 as (n & p & Hn & Hp & _ & ->),
             H2 as (m & q & Hm & Hq & _ & ->). simpl.
    intros Han Ham. pose proof (Hsame n m Hn Hm Han Ham) as <-.
    congruence.
  - intros f Hf. apply in_map_iff in Hf. destruct Hf as (n & <- & _).
    simpl. apply Hact.
  - intros e He. apply flowEdges_in in He.
    destruct He as (n & p & _ & _ & _ & ->). simpl. apply Hact.
  - intros n Hn Ha. apply in_map_iff. exists n. split; [|exact Hn].
    now rewrite (Hon _ Ha).
  - intros n p Hn Ha Hp Hne. apply flowEdges_in. exists n, p.
    repeat split; auto. unfold edge_of. now rewrite (Hon _ Ha).
Qed.

Lemma append_same_suffix (s1 : string) : forall s2 c1 c2,
  String.length c1 = String.length c2 ->
  (s1 ++ c1)%string = (s2 ++ c2)%string -> c1 = c2.
Proof.
  induction s1 as [|a s1 IH]; intros [|b s2] c1 c2 Hlen Heq; simpl in Heq.
  - exact Heq.
  - exfalso. rewrite Heq in Hlen. simpl in Hlen.
    rewrite append_length in Hlen. lia.
  - exfalso. rewrite <- Heq in Hlen. simpl in Hlen.
    rewrite append_length in Hlen. lia.
  - inversion Heq. eauto.
Qed.

Lemma edge_id_target p q x y :
  String.length x = String.length y ->
  GraphView.edge_id p x = GraphView.edge_id q y -> x = y.
Proof.
  unfold GraphView.edge_id. intros Hlen Heq.
  apply append_same_suffix in Heq; [|simpl; now rewrite Hlen].
  now inversion Heq.
Qed.

(** When the node ids are unique and of one length, as generated
    identities are, the ids of the edges are unique too. *)
Theorem graph_edge_ids_distinct
    (nodes : list Node.t) (active : option string)
    (Hunique : NoDup (map Node.id nodes))
    (Hlength : forall n m, In n nodes -> In m nodes ->
                 String.length (Node.id n) = String.length (Node.id m)) :
  NoDup (map GraphView.id (GraphView.flowEdges nodes active)).
Proof.
  induction nodes as [|n ns IH]; [constructor|].
  inversion Hunique as [|? ? Hfresh Hrest]; subst.
  assert (IH' : NoDup (map GraphView.id (GraphView.flowEdges ns active))).
  { apply IH; [exact Hrest|]. intros a b Ha Hb. apply Hlength; now right. }
  unfold GraphView.flowEdges in *. cbn [flat_map].
  destruct (Node.parent_id n) as [p|]; [|exact IH'].
  destruct (truthy p); [|exact IH'].
  cbn [app map]. constructor; [|exact IH'].
  intros Hin. apply in_map_iff in Hin. destruct Hin as (e & Heq & He).
  apply (proj1 (flowEdges_in ns active e)) in He.
  destruct He as (m & q & Hm & _ & _ & ->). simpl in Heq.
  apply edge_id_target in Heq.
  - apply Hfresh. rewrite <- Heq. now apply in_map.
  - apply Hlength; [now right | now left].
Qed.

(** Without the common length two edges can share an id. *)
Example graph_edge_ids_can_clash :
  GraphView.edge_id "a" "b-c" = GraphView.edge_id "a-b" "c".
Proof. reflexivity. Qed.

(** ** Diverge Mode, further *)

Section MoreDivergeFacts.

Import SplitView.

Lemma task_step_consistent e tk t :
  side_consistent tk t ->
  side_consistent (fst (fst (task_step e tk t))) (snd (fst (task_step e tk t))).
Proof.
  unfold side_consistent, task_step.
  destruct (phase tk) eqn:Hph; cbn [fst snd];
    try (rewrite Hph; auto; fail).
  destruct e as [chunk| |]; cbn; auto.
  destruct (ChatStreamChunk.done chunk); cbn; [now rewrite Hph | auto].
Qed.

Lemma task_step_returned e tk t :
  returned (fst (fst (task_step e tk t))) =
  (returned tk + if snd (task_step e tk t) then 1 else 0)%nat.
Proof.
  unfold returned, task_step.
  destruct (phase tk) eqn:Hph; cbn [fst snd];
    try (rewrite Hph; simpl; lia).
  destruct e as [chunk| |]; cbn; try reflexivity.
  destruct (ChatStreamChunk.done chunk); cbn; [now rewrite Hph | reflexivity].
Qed.

(** What every interleaving keeps: each side consistent, and one refresh
    per task that returned. *)
Lemma run_keeps schedule : forall v,
  side_consistent (leftTask v) (leftThread v) ->
  side_consistent (rightTask v) (rightThread v) ->
  refreshes v = (returned (leftTask v) + returned (rightTask v))%nat ->
  let v' := run v schedule in
  side_consistent (leftTask v') (leftThread v') /\
  side_consistent (rightTask v') (rightThread v') /\
  refreshes v' = (returned (leftTask v') + returned (rightTask v'))%nat.
Proof.
  induction schedule as [|[side e] schedule IH]; intros v Hl Hr Hn;
    [cbv zeta; auto|].
  change (run v ((side, e) :: schedule))
    with (run (step v (side, e)) schedule).
  destruct side; apply IH; cbn [step].
  - pose proof (task_step_consistent e _ _ Hl) as H.
    destruct (task_step e (leftTask v) (leftThread v)) as [[tk t] r]. exact H.
  - destruct (task_step e (leftTask v) (leftThread v)) as [[tk t] r]. exact Hr.
  - pose proof (task_step_returned e (leftTask v) (leftThread v)) as H.
    destruct (task_step e (leftTask v) (leftThread v)) as [[tk t] r].
    cbn in *. rewrite H, Hn. unfold bump. destruct r; lia.
  - destruct (task_step e (rightTask v) (rightThread v)) as [[tk t] r]. exact Hl.
  - pose proof (task_step_consistent e _ _ Hr) as H.
    destruct (task_step e (rightTask v) (rightThread v)) as [[tk t] r]. exact H.
  - pose proof (task_step_returned e (rightTask v) (rightThread v)) as H.
    destruct (task_step e (rightTask v) (rightThread v)) as [[tk t] r].
    cbn in *. rewrite H, Hn. unfold bump. destruct r; lia.
Qed.

(** Diverge cannot be started again from a state its own streams lead
    to: while a stream runs its thread is marked as streaming, and once it
    has ended its input is empty, so [handleSendBoth] returns at one of
    its two guards until the user types new prompts. *)
Theorem diverge_cannot_restart
    (sessionId model : string) (parentNode : option Node.t)
    (left right : ThreadState) (v0 : View) (reqL reqR : Request)
    (schedule : list (Side * Event))
    (Hstart : handleSendBoth sessionId parentNode model left right
              = Some (v0, reqL, reqR)) :
  let v := run v0 schedule in
  handleSendBoth sessionId parentNode model (leftThread v) (rightThread v)
    = None.
Proof.
  unfold handleSendBoth in Hstart.
  destruct (negb (trim_truthy (input left)) ||
            negb (trim_truthy (input right))); [discriminate|].
  destruct (isStreaming left || isStreaming right); [discriminate|].
  inversion Hstart; subst; clear Hstart. cbv zeta.
  match goal with |- context [run ?w schedule] => set (v0 := w) end.
  destruct (run_keeps schedule v0) as (Hl & _ & _); try reflexivity.
  unfold handleSendBoth. unfold side_consistent in Hl.
  destruct (phase (leftTask (run v0 schedule))).
  - rewrite Hl. simpl.
    now destruct (negb _ || negb _).
  - destruct Hl as (_ & -> & _). reflexivity.
  - destruct Hl as (_ & -> & _). reflexivity.
Qed.

(** [onRefresh] is called once for each stream that ended well and never
    for one that failed: at any point the number of calls is the number
    of tasks that have returned, two at most. *)
Theorem diverge_refreshes_once_per_success
    (sessionId model : string) (parentNode : option Node.t)
    (left right : ThreadState) (v0 : View) (reqL reqR : Request)
    (schedule : list (Side * Event))
    (Hstart : handleSendBoth sessionId parentNode model left right
              = Some (v0, reqL, reqR)) :
  let v := run v0 schedule in
  refreshes v = (returned (leftTask v) + returned (rightTask v))%nat /\
  (refreshes v <= 2)%nat /\
  (phase (leftTask v) = Failed -> phase (rightTask v) = Failed ->
   refreshes v = 0%nat).
Proof.
  unfold handleSendBoth in Hstart.
  destruct (negb (trim_truthy (input left)) ||
            negb (trim_truthy (input right))); [discriminate|].
  destruct (isStreaming left || isStreaming right); [discriminate|].
  inversion Hstart; subst; clear Hstart. cbv zeta.
  match goal with |- context [run ?w schedule] => set (v0 := w) end.
  destruct (run_keeps schedule v0) as (_ & _ & Hn); try reflexivity.
  cbv zeta in Hn. rewrite Hn. unfold returned.
  repeat split.
  - destruct (phase _), (phase _); simpl; lia.
  - intros -> ->. reflexivity.
Qed.

End MoreDivergeFacts.

(* ===================================================================== *)
(** * Further concrete runs *)
(* ===================================================================== *)

Lemma sendMessage_navigates_to_last_node_witness :
  sendMessage reply_api "Hello" open_at_U1 =
  (settled open_at_U1 [U1; A1; A2] (Some "a2") [U1; A2] None, Resolved tt).
Proof.
  apply (sendMessage_navigates_to_last_node reply_api "Hello" open_at_U1
           session_S
           [Engine.token_event "a2" "Hey"; Engine.token_event "a2" " you"]
           []
           (ChatStreamChunk.mk "" "a2" None true (Some "Hey you") None)
           (TreeResponse.mk "S" [U1; A1; A2]) [U1; A2]);
    try reflexivity.
  - discriminate.
  - constructor.
Defined.

Lemma sendMessage_stream_failure_keeps_view_witness :
  sendMessage broken_api "Hello" open_at_A1 =
  (settled open_at_A1 [U1; A1] (Some "a1") [U1; A1] None,
   Rejected "network error").
Proof.
  apply (sendMessage_stream_failure_keeps_view broken_api "Hello" open_at_A1
           session_S sample_chunks "network error"); reflexivity.
Defined.

Lemma selectSession_without_leaf_keeps_path_witness :
  selectSession epoch_ms corrupt_api session_S open_at_A1 =
  (ChatState.mk [session_S] (Some session_S)
     (Engine.nodes corrupt_store) (Some "a1") [U1; A1] false "" None "m",
   Resolved tt).
Proof.
  apply (selectSession_without_leaf_keeps_path epoch_ms corrupt_api session_S
           open_at_A1 (TreeResponse.mk "S" (Engine.nodes corrupt_store))).
  - reflexivity.
  - discriminate.
  - simpl. intros n [<-|[<-|[]]]; (split; [discriminate|]).
    + exists (Node.mk "y" "S" (Some "x") assistant "" "2" None false).
      split; [simpl; auto | reflexivity].
    + exists (Node.mk "x" "S" (Some "y") user "" "1" None false).
      split; [simpl; auto | reflexivity].
Defined.

Lemma latestLeaf_is_last_of_latest_witness :
  exists pre post t,
    [B1; B2] = pre ++ latestLeaf epoch_ms B1 [B2] :: post /\
    has_instant epoch_ms (latestLeaf epoch_ms B1 [B2]) t /\
    (forall x u, In x pre -> has_instant epoch_ms x u -> (u <= t)%Z) /\
    (forall x u, In x post -> has_instant epoch_ms x u -> (u < t)%Z).
Proof.
  apply (latestLeaf_is_last_of_latest epoch_ms B1 [B2]).
  intros n [<-|[<-|[]]]; eexists; reflexivity.
Defined.

(** Of two leaves of one instant the later in the array is taken. *)
Example latestLeaf_tie : latestLeaf epoch_ms B1 [B2] = B2.
Proof. reflexivity. Qed.

Lemma stream_parsers_ignore_chunking_witness :
  streamChat bool parse_bool "S" "Hello" None "m" (Some sample_reads) =
  streamChat bool parse_bool "S" "Hello" None "m" (Some [join sample_reads]).
Proof.
  apply (stream_parsers_ignore_chunking bool parse_bool sample_reads
           [join sample_reads] "S" "Hello" "m" None).
  reflexivity.
Defined.

Lemma sibling_navigation_round_trip_witness :
  MessageBubble.handlePrevSibling (Some (SiblingsResponse.mk [A1; A2] 1 2))
    = MessageBubble.Navigate "a1" /\
  MessageBubble.handleNextSibling (Some (SiblingsResponse.mk [A1; A2] 0 2))
    = MessageBubble.Navigate "a2".
Proof.
  exact (sibling_navigation_round_trip [A1; A2] 0 A1 A2 eq_refl eq_refl).
Defined.

Lemma diverge_branches_from_path_tip_witness :
  exists above tip,
    [U1; A1] = above ++ [tip] /\
    App.getParentForSplit [U1; A1] = Some tip /\
    forall sessionId model left right v reqL reqR,
      SplitView.handleSendBoth sessionId (App.getParentForSplit [U1; A1])
        model left right = Some (v, reqL, reqR) ->
      SplitView.req_parentId reqL = or_null (Some (Node.id tip)) /\
      SplitView.req_parentId reqR = or_null (Some (Node.id tip)).
Proof.
  apply (diverge_branches_from_path_tip [U1; A1] false). reflexivity.
Defined.

Lemma graph_highlights_one_witness :
  let nodes := [U1; A1; A2] in
  let active := Some "a2" in
  (forall f1 f2,
     In f1 (GraphView.flowNodes nodes active) ->
     In f2 (GraphView.flowNodes nodes active) ->
     GraphView.isActive f1 = true -> GraphView.isActive f2 = true ->
     f1 = f2) /\
  (forall e1 e2,
     In e1 (GraphView.flowEdges nodes active) ->
     In e2 (GraphView.flowEdges nodes active) ->
     GraphView.animated e1 = true -> GraphView.animated e2 = true ->
     e1 = e2) /\
  (forall f, In f (GraphView.flowNodes nodes active) ->
             GraphView.isActive f = true ->
             active = Some (GraphView.flow_id f)) /\
  (forall e, In e (GraphView.flowEdges nodes active) ->
             GraphView.animated e = true ->
             active = Some (GraphView.target e)) /\
  (forall n, In n nodes -> active = Some (Node.id n) ->
             In (GraphView.mkFlowNode (Node.id n) n true)
                (GraphView.flowNodes nodes active)) /\
  (forall n p, In n nodes -> active = Some (Node.id n) ->
               Node.parent_id n = Some p -> p <> "" ->
               In (GraphView.mkEdge (GraphView.edge_id p (Node.id n)) p
                     (Node.id n) true)
                  (GraphView.flowEdges nodes active)).
Proof.
  apply (graph_highlights_one [U1; A1; A2] (Some "a2")).
  simpl. repeat constructor; simpl; intuition discriminate.
Defined.

(** The edges of the sample conversation. *)
Example flowEdges_sample :
  GraphView.flowEdges [U1; A1; A2] (Some "a2") =
  [GraphView.mkEdge "u1-a1" "u1" "a1" false;
   GraphView.mkEdge "u1-a2" "u1" "a2" true].
Proof. reflexivity. Qed.

Lemma graph_edge_ids_distinct_witness :
  NoDup (map GraphView.id (GraphView.flowEdges [U1; A1; A2] (Some "a2"))).
Proof.
  apply (graph_edge_ids_distinct [U1; A1; A2] (Some "a2")).
  - simpl. repeat constructor; simpl; intuition discriminate.
  - simpl. intros n m [<-|[<-|[<-|[]]]] [<-|[<-|[<-|[]]]]; reflexivity.
Defined.

Lemma diverge_cannot_restart_witness :
  let v0 := SplitView.mkView (SplitView.started left_prompt)
              (SplitView.started right_prompt)
              (SplitView.mkTask "" SplitView.Running)
              (SplitView.mkTask "" SplitView.Running) 0 in
  let v := SplitView.run v0 sample_schedule in
  SplitView.handleSendBoth "S" (Some A1) "m" (SplitView.leftThread v)
    (SplitView.rightThread v) = None.
Proof.
  exact (diverge_cannot_restart "S" "m" (Some A1) left_prompt right_prompt
           _ (SplitView.mkRequest "S" "Explain" (Some "a1") "m")
           (SplitView.mkRequest "S" "Summarise" (Some "a1") "m")
           sample_schedule eq_refl).
Defined.

Lemma diverge_refreshes_once_per_success_witness :
  let v0 := SplitView.mkView (SplitView.started left_prompt)
              (SplitView.started right_prompt)
              (SplitView.mkTask "" SplitView.Running)
              (SplitView.mkTask "" SplitView.Running) 0 in
  let v := SplitView.run v0 sample_schedule in
  SplitView.refreshes v =
    (returned (SplitView.leftTask v) + returned (SplitView.rightTask v))%nat /\
  (SplitView.refreshes v <= 2)%nat /\
  (SplitView.phase (SplitView.leftTask v) = SplitView.Failed ->
   SplitView.phase (SplitView.rightTask v) = SplitView.Failed ->
   SplitView.refreshes v = 0%nat).
Proof.
  exact (diverge_refreshes_once_per_success "S" "m" (Some A1) left_prompt
           right_prompt _ (SplitView.mkRequest "S" "Explain" (Some "a1") "m")
           (SplitView.mkRequest "S" "Summarise" (Some "a1") "m")
           sample_schedule eq_refl).
Defined.

(** In the sample run the left stream returned and the right one failed:
    one refresh. *)
Example sample_schedule_refreshes :
  SplitView.refreshes
    (SplitView.run
       (SplitView.mkView (SplitView.started left_prompt)
          (SplitView.started right_prompt)
          (SplitView.mkTask "" SplitView.Running)
          (SplitView.mkTask "" SplitView.Running) 0)
       sample_schedule) = 1%nat.
Proof. reflexivity. Qed.

Lemma sendMessage_settles_witness :
  sendMessage reply_api "Hello"
    (fst (setIsStreaming true open_at_U1))
    = (fst (setIsStreaming true open_at_U1), Resolved tt) /\
  exists nodes active path r,
    sendMessage reply_api "Hello" open_at_U1 =
    (settled open_at_U1 nodes active path None, r).
Proof.
  split.
  - apply (proj1 (sendMessage_settles reply_api "Hello"
                    (fst (setIsStreaming true open_at_U1)))).
    right. reflexivity.
  - apply (proj2 (sendMessage_settles reply_api "Hello" open_at_U1)
             session_S); reflexivity.
Defined.

Lemma regenerate_settles_witness :
  regenerate broken_api "a1" (fst (setIsStreaming true open_at_A1))
    = (fst (setIsStreaming true open_at_A1), Resolved tt) /\
  exists nodes active path r,
    regenerate broken_api "a1" open_at_A1 =
    (settled open_at_A1 nodes active path None, r) /\
    (ChatState.currentSession open_at_A1 = None -> nodes = [U1; A1]).
Proof.
  split.
  - apply (proj1 (regenerate_settles broken_api "a1"
                    (fst (setIsStreaming true open_at_A1)))).
    reflexivity.
  - apply (proj2 (regenerate_settles broken_api "a1" open_at_A1)).
    reflexivity.
Defined.

(** Regenerating over a stream that breaks: rejected, the view kept. *)
Example regenerate_broken_stream :
  regenerate broken_api "a1" open_at_A1 =
  (open_at_A1, Rejected "network error").
Proof. reflexivity. Qed.

Lemma selectSession_rejections_witness :
  selectSession epoch_ms failing_api session_E open_at_A1 =
  (ChatState.mk [session_S] (Some session_E) [U1; A1] (Some "a1") [U1; A1]
     false "" None "m",
   Rejected "offline").
Proof.
  apply (proj1 (selectSession_rejections epoch_ms failing_api session_E
                  open_at_A1)).
  reflexivity.
Defined.

Lemma renameSession_renames_current_only_witness :
  exists st',
    renameSession reply_api sample_sapi "S" "Greetings" open_at_A1
      = (st', Resolved tt) /\
    ChatState.sessions st' = [session_S] /\
    ChatState.nodes st' = [U1; A1] /\
    ChatState.currentPath st' = [U1; A1] /\
    ChatState.activeNodeId st' = Some "a1" /\
    (forall cs, ChatState.currentSession open_at_A1 = Some cs ->
                Session.id cs = "S" ->
                ChatState.currentSession st' =
                  Some (Session.mk "S" "Greetings" (Session.created_at cs)
                          (Session.updated_at cs))) /\
    ((forall cs, ChatState.currentSession open_at_A1 = Some cs ->
                 Session.id cs <> "S") ->
     ChatState.currentSession st' = ChatState.currentSession open_at_A1).
Proof.
  apply (proj2 (proj2 (renameSession_renames_current_only reply_api
                         sample_sapi "S" "Greetings" open_at_A1))
           (Session.mk "S" "Greetings" "900" "5000") [session_S]);
    reflexivity.
Defined.

(** The list shows what the backend says, the header the requested name. *)
Example renameSession_sample :
  ChatState.currentSession
    (fst (renameSession reply_api sample_sapi "S" "Greetings" open_at_A1))
  = Some (Session.mk "S" "Greetings" "900" "3000").
Proof. reflexivity. Qed.

Lemma createNewSession_opens_empty_session_witness :
  createNewSession epoch_ms sample_api sample_sapi None open_at_A1 =
  (ChatState.mk [session_E] (Some (Session.mk "E" "New Chat" "4000" "4000"))
     [] None [] false "" None "m",
   Resolved (Session.mk "E" "New Chat" "4000" "4000")).
Proof.
  apply (proj2 (proj2 (createNewSession_opens_empty_session epoch_ms
                         sample_api sample_sapi None open_at_A1))
           (Session.mk "E" "New Chat" "4000" "4000") [session_E]);
    reflexivity.
Defined.

Lemma stream_parsers_yield_at_most_one_per_newline_witness :
  stream_loop bool parse_bool "" ["tr"; "ue"] = [].
Proof.
  apply (proj2 (stream_parsers_yield_at_most_one_per_newline bool parse_bool
                  ["tr"; "ue"])).
  reflexivity.
Defined.

Lemma contextMessages_end_of_path_witness :
  exists shown, contextMessages [U1; A1; U1; A2; U1; A1] = shown ++ [A1].
Proof.
  apply (proj2 (proj2 (contextMessages_end_of_path [U1; A1; U1; A2; U1; A1]))).
  reflexivity.
Defined.

Example contextMessages_sample :
  contextMessages [U1; A1; U1; A2; U1; A1] = [U1; A2; U1; A1] /\
  contextMessages [U1; A1] = [U1; A1].
Proof. split; reflexivity. Qed.

Lemma preview_bounds_witness :
  let hello := [72%N; 101%N; 108%N; 108%N; 111%N; 32%N; 119%N] in
  hello = firstn 5 hello ++ skipn 5 hello /\
  length (firstn 5 hello) = 5%nat /\
  preview 5 hello = firstn 5 hello ++ dots /\
  length (preview 5 hello) = (5 + 3)%nat.
Proof.
  apply (proj1 (proj2 (preview_bounds 5
                         [72%N; 101%N; 108%N; 108%N; 111%N; 32%N; 119%N]))).
  simpl. lia.
Defined.

(** Sixty CJK characters, one code unit each, fit a preview of 150. *)
Example preview_sample :
  preview 5 [72%N; 101%N; 108%N; 108%N; 111%N; 32%N; 119%N]
    = [72%N; 101%N; 108%N; 108%N; 111%N; 46%N; 46%N; 46%N] /\
  preview 150 (repeat 20013%N 60) = repeat 20013%N 60.
Proof. split; reflexivity. Qed.

(** Midway through the sample run, the right stream having failed: the
    left thread shows its own two tokens, the right one is cleared. *)
Example diverge_sample_midway :
  let v := SplitView.run
             (SplitView.mkView (SplitView.started left_prompt)
                (SplitView.started right_prompt)
                (SplitView.mkTask "" SplitView.Running)
                (SplitView.mkTask "" SplitView.Running) 0)
             (removelast sample_schedule) in
  SplitView.leftThread v = SplitView.mkThread "Explain" [] true "ab" /\
  SplitView.rightThread v = SplitView.mkThread "" [] false "".
Proof. split; reflexivity. Qed.
